(** * knx_step_bridge: step <-> percent translation for KNX group addresses

    A shallow embedding of [src/knx_step_bridge/__init__.py] and the
    properties of its event handler, payload decoder and unit conversion.

    Modelling conventions.
    - Python [int] is [Z] (unbounded on both sides).
    - Python [str] is [string], a character standing for the code point of
      its number (U+0000..U+00FF); strings with higher code points are not
      represented. On this range [int] knows the ASCII digits only, and the
      white space TAB..CR, space, U+0085 and U+00A0.
    - The readings of the clock, the timestamps and the debounce window are
      binary64 floats, the kernel's [PrimFloat.float]; [now - last_sent] and
      [<] are its IEEE 754 subtraction and comparison.
    - The three float expressions of the handler are modelled by exact
      integer arithmetic. Section "Agreement with binary64" runs the same
      expressions on the kernel's IEEE 754 binary64 numbers and shows that
      the results coincide for [max_step] in the configured range 1..255 and
      raw percent bytes 0..255. Outside 0..255 the raw byte is on the
      clamped side: float conversion, division by 255.0 and multiplication
      by 100 are monotone, so the float is at most 0 for a negative [raw] and
      at least 100 for [raw >= 255], as the exact value is.
    - A [Bridge] object is referred to by its position in
      [KnxStepBridgeManager.bridges]: the handler mutates the object that
      [_find_bridge_by_address] returned, i.e. the first match in the list. *)

From Stdlib Require Import ZArith QArith Qround Lia Ascii String.
From Stdlib Require Strings.Byte.
From Stdlib Require Floats.PrimFloat Floats.FloatOps Floats.SpecFloat.
From Stdlib Require Floats.FloatAxioms.
From Stdlib Require Numbers.Cyclic.Int63.Uint63.
From stdpp Require Import base option list strings gmap.

Set Warnings "-register-all".
Local Open Scope Z_scope.

(** ** Python built-ins used by the module *)

Module Py.

(** Exceptions that the modelled built-ins can raise. *)
Inductive exn : Type :=
| ValueError
| TypeError
| OverflowError
| ZeroDivisionError.

(** [math.floor(n / d)] for integers [n] and [d <> 0]. *)
Definition floor_div (n d : Z) : Z := n / d.

(** [math.ceil(n / d)] for integers [n] and [d > 0]. *)
Definition ceil_div (n d : Z) : Z := - ((- n) / d).

(** [round(n / d)] for [d > 0]: nearest integer, ties to the even one. *)
Definition round_div (n d : Z) : Z :=
  let q := n / d in
  let r := n mod d in
  match (2 * r) ?= d with
  | Lt => q
  | Gt => q + 1
  | Eq => if Z.even q then q else q + 1
  end.

(** An [int] converts to a binary64 float iff it rounds (to nearest, ties to
    even) to a finite value, i.e. its magnitude is below [2^1024 - 2^970];
    otherwise [int / float] raises [OverflowError]. *)
Definition float_limit : Z := 2 ^ 1024 - 2 ^ 970.

Definition fits_float (n : Z) : bool := Z.abs n <? float_limit.

(** Outcome of a call that either returns or raises. *)
Inductive result (A : Type) : Type :=
| Ok (a : A)
| Err (e : exn).
Arguments Ok {A} a.
Arguments Err {A} e.

(** A Python [float]: a finite value (a rational), an infinity or a NaN. *)
Inductive pyfloat : Type :=
| FFinite (q : Q)
| FInf
| FNan.

(** The values an event can carry. [VBytes] stands for [bytes] and
    [bytearray] alike. *)
Inductive pyval : Type :=
| VNone
| VBool (b : bool)
| VInt (n : Z)
| VFloat (f : pyfloat)
| VStr (s : string)
| VBytes (bs : list Byte.byte)
| VList (l : list pyval)
| VTuple (l : list pyval).

(** Truth value of an object, as [not x] and [x or y] test it. *)
Definition truthy (v : pyval) : bool :=
  match v with
  | VNone => false
  | VBool b => b
  | VInt n => negb (n =? 0)
  | VFloat (FFinite q) => negb (Qnum q =? 0)
  | VFloat _ => true
  | VStr s => negb (String.eqb s "")
  | VBytes bs => match bs with [] => false | _ => true end
  | VList l | VTuple l => match l with [] => false | _ => true end
  end.

(** [a or b]. *)
Definition or_ (a b : pyval) : pyval := if truthy a then a else b.

(** [s.startswith(c)] for a one-character [c]. *)
Definition starts_with (c : ascii) (s : string) : bool :=
  match s with
  | String c' _ => Ascii.eqb c' c
  | EmptyString => false
  end.

(** [v == s] for a [str] object [s]. *)
Definition eq_str (v : pyval) (s : string) : bool :=
  match v with
  | VStr t => String.eqb t s
  | _ => false
  end.

(** *** Integer literals: [int(s)] and [int(s, 16)] *)

Definition code (c : ascii) : Z := Z.of_N (N_of_ascii c).

(** Value of a character as a digit: 0-9, then a-z or A-Z for 10..35. *)
Definition digit_value (c : ascii) : option Z :=
  let n := code c in
  if (48 <=? n) && (n <=? 57) then Some (n - 48)
  else if (97 <=? n) && (n <=? 122) then Some (n - 87)
  else if (65 <=? n) && (n <=? 90) then Some (n - 55)
  else None.

Definition digit_in (base : Z) (c : ascii) : option Z :=
  match digit_value c with
  | Some d => if d <? base then Some d else None
  | None => None
  end.

(** White space around the literal of a [str]: TAB..CR and space, and the
    two spaces above U+007F, NEL (U+0085) and NBSP (U+00A0), which [int]
    turns into spaces before it parses. FS..US are not white space here. *)
Definition is_space_str (c : ascii) : bool :=
  let n := code c in
  ((9 <=? n) && (n <=? 13)) || (n =? 32) || (n =? 133) || (n =? 160).

(** White space around the literal of a [bytes] object: TAB..CR and space. *)
Definition is_space_bytes (c : ascii) : bool :=
  let n := code c in
  ((9 <=? n) && (n <=? 13)) || (n =? 32).

Fixpoint skip_spaces (sp : ascii -> bool) (s : string) : string :=
  match s with
  | String c s' => if sp c then skip_spaces sp s' else s
  | EmptyString => s
  end.

(** Digits after the first one. Single underscores may separate digits; a
    doubled or a trailing underscore is an error. Returns the value and the
    unread rest. *)
Fixpoint scan_digits (base : Z) (prev_underscore : bool) (acc : Z) (s : string)
  : option (Z * string) :=
  match s with
  | EmptyString => if prev_underscore then None else Some (acc, s)
  | String c s' =>
      if Ascii.eqb c "_" then
        if prev_underscore then None else scan_digits base true acc s'
      else
        match digit_in base c with
        | Some d => scan_digits base false (acc * base + d) s'
        | None => if prev_underscore then None else Some (acc, s)
        end
  end.

(** The digit string must start with a digit (not with an underscore, and
    not be empty). *)
Definition parse_digits (base : Z) (s : string) : option (Z * string) :=
  match s with
  | String c s' =>
      match digit_in base c with
      | Some d => scan_digits base false d s'
      | None => None
      end
  | EmptyString => None
  end.

(** An optional sign. *)
Definition parse_sign (s : string) : bool * string :=
  match s with
  | String c s' =>
      if Ascii.eqb c "+" then (false, s')
      else if Ascii.eqb c "-" then (true, s')
      else (false, s)
  | EmptyString => (false, s)
  end.

(** With base 16 a [0x] or [0X] prefix is skipped, and one underscore
    after it. *)
Definition skip_base_prefix (base : Z) (s : string) : string :=
  if base =? 16 then
    match s with
    | String c (String x s') =>
        if Ascii.eqb c "0" && (Ascii.eqb x "x" || Ascii.eqb x "X") then
          match s' with
          | String u s'' => if Ascii.eqb u "_" then s'' else s'
          | EmptyString => s'
          end
        else s
    | _ => s
    end
  else s.

(** The digits in the run of digits and underscores that starts [s]. *)
Fixpoint count_digits (base : Z) (s : string) : Z :=
  match s with
  | EmptyString => 0
  | String c s' =>
      if Ascii.eqb c "_" then count_digits base s'
      else
        match digit_in base c with
        | Some _ => 1 + count_digits base s'
        | None => 0
        end
  end.

(** [sys.int_info.default_max_str_digits]: a literal of more digits is a
    [ValueError], unless the base is a power of two. *)
Definition max_str_digits : Z := 4300.

Definition digits_limited (base : Z) : bool :=
  negb ((base =? 2) || (base =? 4) || (base =? 8) || (base =? 16) || (base =? 32)).

(** [int(s, base)] for base 10 or 16; [None] stands for [ValueError]. *)
Definition parse_int (sp : ascii -> bool) (base : Z) (s : string) : option Z :=
  let '(negative, s1) := parse_sign (skip_spaces sp s) in
  match parse_digits base (skip_base_prefix base s1) with
  | Some (v, rest) =>
      if digits_limited base
         && (max_str_digits <? count_digits base (skip_base_prefix base s1))
      then None
      else
        match skip_spaces sp rest with
        | EmptyString => Some (if negative : bool then - v else v)
        | String _ _ => None
        end
  | None => None
  end.

Definition value_or_error (o : option Z) : result Z :=
  match o with
  | Some v => Ok v
  | None => Err ValueError
  end.

(** [int(x)] with one argument. *)
Definition int_ (x : pyval) : result Z :=
  match x with
  | VInt n => Ok n
  | VBool b => Ok (Z.b2z b)
  | VFloat (FFinite q) => Ok (Z.quot (Qnum q) (Z.pos (Qden q)))
  | VFloat FInf => Err OverflowError
  | VFloat FNan => Err ValueError
  | VStr s => value_or_error (parse_int is_space_str 10 s)
  | VBytes bs => value_or_error (parse_int is_space_bytes 10 (string_of_list_byte bs))
  | VNone | VList _ | VTuple _ => Err TypeError
  end.

(** [int(s, 16)] for a [str]. *)
Definition int_base16 (s : string) : result Z :=
  value_or_error (parse_int is_space_str 16 s).

End Py.

Import Py.

(** ** Unit conversion (lines 113-114 and 123-132 of the handler) *)

(** Lines 113-114:
    [step = max(0, min(bridge.max_step, raw))];
    [percent = int(math.floor(step * 100 / bridge.max_step))]. *)
Definition step_to_percent (raw max_step : Z) : Z :=
  let step := Z.max 0 (Z.min max_step raw) in
  Py.floor_div (step * 100) max_step.

(** Lines 123-124:
    [percent = int(round((raw / 255.0) * 100))];
    [percent = max(0, min(100, percent))].
    This is the value for a [raw] that fits a float; for any other [raw]
    line 123 raises [OverflowError], which [_handle_knx_event] tests with
    [fits_float] before it uses this function. *)
Definition byte_to_percent (raw : Z) : Z :=
  let percent := Py.round_div (raw * 100) 255 in
  Z.max 0 (Z.min 100 percent).

(** Lines 127-132: the CEIL rule and the guard against overshooting. The
    integer ceiling is the float result for [max_step] in the range 1..255
    of the schema (see [percent_to_step_of_binary64]). *)
Definition percent_to_step_of (percent max_step : Z) : Z :=
  if percent <=? 0 then 0
  else
    let step := Py.ceil_div (percent * max_step) 100 in
    if step >? max_step then max_step else step.

(** Lines 123-132 together: raw byte to (percent, step). *)
Definition percent_to_step (raw max_step : Z) : Z * Z :=
  let percent := byte_to_percent raw in
  (percent, percent_to_step_of percent max_step).

(** ** The float expressions on binary64 numbers *)

Module Binary64.

(** [float(n)] for [0 <= n < 2^53], where the conversion is exact. *)
Definition of_int (n : Z) : PrimFloat.float :=
  PrimFloat.of_uint63 (Uint63.of_Z n).

(** The rational that a finite float denotes. *)
Definition to_Q (x : PrimFloat.float) : option Q :=
  match FloatOps.Prim2SF x with
  | SpecFloat.S754_zero _ => Some 0%Q
  | SpecFloat.S754_finite s m e =>
      let n := if s then Z.neg m else Z.pos m in
      Some (if 0 <=? e then inject_Z (n * 2 ^ e)
            else Qmake n (Z.to_pos (2 ^ (- e))))
  | _ => None
  end.

Definition round_half_even (q : Q) : Z :=
  let f := Qfloor q in
  match Qcompare (q - inject_Z f) (1 # 2) with
  | Lt => f
  | Gt => f + 1
  | Eq => if Z.even f then f else f + 1
  end.

(** [math.floor(x)], [math.ceil(x)] and [round(x)]; [None] for an infinity
    or a NaN, where Python raises. *)
Definition floor (x : PrimFloat.float) : option Z := Qfloor <$> to_Q x.
Definition ceil (x : PrimFloat.float) : option Z := Qceiling <$> to_Q x.
Definition round (x : PrimFloat.float) : option Z := round_half_even <$> to_Q x.

(** Lines 113-114 as written. *)
Definition step_to_percent (raw max_step : Z) : option Z :=
  let step := Z.max 0 (Z.min max_step raw) in
  floor (PrimFloat.div (of_int (step * 100)) (of_int max_step)).

(** Lines 123-124 as written, for [0 <= raw < 2^53]. *)
Definition byte_to_percent (raw : Z) : option Z :=
  match round (PrimFloat.mul (PrimFloat.div (of_int raw) (of_int 255)) (of_int 100)) with
  | Some percent => Some (Z.max 0 (Z.min 100 percent))
  | None => None
  end.

(** Lines 127-132 as written. *)
Definition percent_to_step_of (percent max_step : Z) : option Z :=
  if percent <=? 0 then Some 0
  else
    match ceil (PrimFloat.div (of_int (percent * max_step)) (of_int 100)) with
    | Some step => Some (if step >? max_step then max_step else step)
    | None => None
    end.

(** The float that the literal [n/d] denotes, for small non-negative
    integers: the correctly rounded quotient. *)
Definition ratio (n d : Z) : PrimFloat.float :=
  PrimFloat.div (of_int n) (of_int d).

(** [float(n)] for any integer, as [n / 1000.0] converts its left operand:
    to nearest, ties to even; [OverflowError] when that is not finite. *)
Definition of_Z (n : Z) : result PrimFloat.float :=
  match SpecFloat.binary_normalize FloatOps.prec FloatOps.emax n 0 false with
  | SpecFloat.S754_infinity _ => Err OverflowError
  | sf => Ok (FloatOps.SF2Prim sf)
  end.

(** Both floats are finite and the number [x] denotes is at most the one
    [y] denotes. *)
Definition le (x y : PrimFloat.float) : Prop :=
  match to_Q x, to_Q y with
  | Some a, Some b => (a <= b)%Q
  | _, _ => False
  end.

Definition leb_value (x y : PrimFloat.float) : bool :=
  match to_Q x, to_Q y with
  | Some a, Some b => Qle_bool a b
  | _, _ => false
  end.

(** The rational [n * 2^e]. *)
Definition finite_value (n e : Z) : Q :=
  if 0 <=? e then inject_Z (n * 2 ^ e) else Qmake n (Z.to_pos (2 ^ (- e))).

(** [to_Q] on the specification of a float. *)
Definition sf_value (f : SpecFloat.spec_float) : option Q :=
  match f with
  | SpecFloat.S754_zero _ => Some 0%Q
  | SpecFloat.S754_finite s m e =>
      Some (finite_value (if s then Z.neg m else Z.pos m) e)
  | _ => None
  end.

(** The specified value is not negative, or it is a NaN. *)
Definition not_negative (f : SpecFloat.spec_float) : Prop :=
  match f with
  | SpecFloat.S754_nan | SpecFloat.S754_zero _ => True
  | SpecFloat.S754_infinity s | SpecFloat.S754_finite s _ _ => s = false
  end.

End Binary64.

(** ** Payload decoder (lines 136-152) *)

(** [_payload_to_int]: [Ok (Some n)] is a returned integer, [Ok None] is
    the returned [None], [Err e] an exception that the function lets
    through ([int] of an infinite float raises [OverflowError], which is
    not among the caught ones). A [bool] is an [int] and is returned as the
    number it equals. *)
Definition _payload_to_int (payload : pyval) : result (option Z) :=
  match payload with
  | VInt n => Ok (Some n)
  | VBool b => Ok (Some (Z.b2z b))
  | VStr s =>
      match (if String.prefix "0x" s then int_base16 s else int_ (VStr s)) with
      | Ok n => Ok (Some n)
      | Err ValueError => Ok None
      | Err e => Err e
      end
  | VList (x :: _) | VTuple (x :: _) =>
      match int_ x with
      | Ok n => Ok (Some n)
      | Err TypeError | Err ValueError => Ok None
      | Err e => Err e
      end
  | VBytes (b :: _) => Ok (Some (Z.of_N (Byte.to_N b)))
  | _ => Ok None
  end.

(** ** Data model (lines 49-67) *)

Record Bridge : Type := {
  name : string;
  step_address : string;
  percent_address : string;
  max_step : Z;
  last_sent_step_ts : PrimFloat.float;
  last_sent_percent_ts : PrimFloat.float
}.

(** The dictionary handed to [hass.services.async_call("knx", "send", ...,
    blocking=False)]. *)
Record ServiceCall : Type := {
  call_address : string;
  call_payload : Z;
  call_type : string
}.

(** The manager with the part of [hass] it acts on: [hass_calls] are the
    service calls dispatched so far, oldest first. *)
Record KnxStepBridgeManager : Type := {
  bridges : list Bridge;
  _debounce : PrimFloat.float;
  hass_calls : list ServiceCall
}.

(** [Bridge(name=..., step_address=..., percent_address=..., max_step=...)]. *)
Definition new_bridge (n s p : string) (m : Z) : Bridge :=
  {| name := n; step_address := s; percent_address := p; max_step := m;
     last_sent_step_ts := PrimFloat.zero; last_sent_percent_ts := PrimFloat.zero |}.

(** [KnxStepBridgeManager(hass, debounce_ms)]. Line 64,
    [self._debounce = debounce_ms / 1000.0], is a float division and raises
    [OverflowError] when [debounce_ms] does not fit a float. *)
Definition new_manager (debounce_ms : Z) : result KnxStepBridgeManager :=
  match Binary64.of_Z debounce_ms with
  | Ok ms =>
      Ok {| bridges := [];
            _debounce := PrimFloat.div ms (Binary64.of_int 1000);
            hass_calls := [] |}
  | Err e => Err e
  end.

Definition add_bridge (b : Bridge) (self : KnxStepBridgeManager) : KnxStepBridgeManager :=
  {| bridges := bridges self ++ [b];
     _debounce := _debounce self;
     hass_calls := hass_calls self |}.

(** [bridge.last_sent_percent_ts = t]: the other five fields are kept. *)
Definition with_percent_ts (now_send : PrimFloat.float) (b : Bridge) : Bridge :=
  {| name := name b;
     step_address := step_address b;
     percent_address := percent_address b;
     max_step := max_step b;
     last_sent_step_ts := last_sent_step_ts b;
     last_sent_percent_ts := now_send |}.

(** [bridge.last_sent_step_ts = t]: the other five fields are kept. *)
Definition with_step_ts (now_send : PrimFloat.float) (b : Bridge) : Bridge :=
  {| name := name b;
     step_address := step_address b;
     percent_address := percent_address b;
     max_step := max_step b;
     last_sent_step_ts := now_send;
     last_sent_percent_ts := last_sent_percent_ts b |}.

(** The schema of the configuration: [max_step] in 1..255. *)
Definition valid_bridge (b : Bridge) : Prop := 1 <= max_step b <= 255.

(** ** Bridge registry (lines 80-85) *)

Definition owns (b : Bridge) (address : pyval) : bool :=
  eq_str address (step_address b) || eq_str address (percent_address b).

(** [_find_bridge_by_address]: the first bridge owning the address, with
    its position in the list (the identity of the returned object). *)
Fixpoint find_from (i : nat) (bs : list Bridge) (address : pyval) : option (nat * Bridge) :=
  match bs with
  | [] => None
  | b :: bs' => if owns b address then Some (i, b) else find_from (S i) bs' address
  end.

Definition _find_bridge_by_address (self : KnxStepBridgeManager) (address : pyval)
  : option (nat * Bridge) :=
  find_from 0 (bridges self) address.

(** ** The event handler (lines 91-184) *)

(** Computations on the manager that may raise. *)
Definition M (A : Type) : Type :=
  KnxStepBridgeManager -> result A * KnxStepBridgeManager.

Definition ret {A} (a : A) : M A := fun self => (Ok a, self).

Definition raise {A} (e : exn) : M A := fun self => (Err e, self).

Definition bind {A B} (c : M A) (k : A -> M B) : M B :=
  fun self =>
    match c self with
    | (Ok a, self') => k a self'
    | (Err e, self') => (Err e, self')
    end.

Definition lift {A} (r : result A) : M A := fun self => (r, self).

Definition get_self : M KnxStepBridgeManager := fun self => (Ok self, self).

(** Assignment to the fields of the bridge object at position [i]. *)
Definition store_bridge (i : nat) (b : Bridge) : M unit :=
  fun self =>
    (Ok tt, {| bridges := <[i := b]> (bridges self);
               _debounce := _debounce self;
               hass_calls := hass_calls self |}).

(** [hass.services.async_call("knx", "send", call, blocking=False)]. *)
Definition async_call (c : ServiceCall) : M unit :=
  fun self =>
    (Ok tt, {| bridges := bridges self;
               _debounce := _debounce self;
               hass_calls := hass_calls self ++ [c] |}).

Notation "x <- c ;; k" := (bind c (fun x => k))
  (at level 100, c at next level, right associativity).
Notation "c ;;; k" := (bind c (fun _ => k))
  (at level 100, right associativity).

(** Lines 154-168. [now_send] is the clock reading taken at line 156. *)
Definition _send_percent (now_send : PrimFloat.float) (i : nat) (bridge : Bridge) (percent : Z) : M unit :=
  let percent := Z.max 0 (Z.min 100 percent) in
  store_bridge i (with_percent_ts now_send bridge) ;;;
  async_call {| call_address := percent_address bridge;
                call_payload := percent;
                call_type := "percent" |}.

(** Lines 170-184. [now_send] is the clock reading taken at line 172. *)
Definition _send_step (now_send : PrimFloat.float) (i : nat) (bridge : Bridge) (step : Z) : M unit :=
  let step := Z.max 0 (Z.min (max_step bridge) step) in
  store_bridge i (with_step_ts now_send bridge) ;;;
  async_call {| call_address := step_address bridge;
                call_payload := step;
                call_type := "1byte_unsigned" |}.

(** An event: [event.data] is a dictionary or [None]. *)
Record Event : Type := { event_data : option (gmap string pyval) }.

(** [d.get(key)]. *)
Definition dict_get (d : gmap string pyval) (key : string) : pyval :=
  default VNone (d !! key).

Definition is_None (v : pyval) : bool :=
  match v with
  | VNone => true
  | _ => false
  end.

(** Lines 92-93: [data = event.data or {}];
    [address = data.get("address") or data.get("destination")]. *)
Definition event_address (event : Event) : pyval :=
  let data := default ∅ (event_data event) in
  or_ (dict_get data "address") (dict_get data "destination").

(** Line 94: [payload = data.get("data")]. *)
Definition event_payload (event : Event) : pyval :=
  let data := default ∅ (event_data event) in
  dict_get data "data".

(** Lines 91-134. [now] is the clock reading of line 107, [now_send] the one
    taken inside the send. Every early [return] is [ret tt]. Dividing by a
    [max_step] of 0 raises [ZeroDivisionError]; [raw / 255.0] raises
    [OverflowError] when [raw] does not fit a float. Both exceptions leave
    through the handler, as nothing catches them. *)
Definition _handle_knx_event (now now_send : PrimFloat.float) (event : Event) : M unit :=
  let address := event_address event in
  let payload := event_payload event in
  if negb (truthy address) || is_None payload then ret tt
  else
    self <- get_self ;;
    match _find_bridge_by_address self address with
    | None => ret tt
    | Some (i, bridge) =>
        raw <- lift (_payload_to_int payload) ;;
        match raw with
        | None => ret tt
        | Some raw =>
            if eq_str address (step_address bridge) then
              if PrimFloat.ltb (PrimFloat.sub now (last_sent_step_ts bridge))
                               (_debounce self)
              then ret tt
              else if max_step bridge =? 0 then raise ZeroDivisionError
              else
                let percent := step_to_percent raw (max_step bridge) in
                _send_percent now_send i bridge percent
            else if eq_str address (percent_address bridge) then
              if PrimFloat.ltb (PrimFloat.sub now (last_sent_percent_ts bridge))
                               (_debounce self)
              then ret tt
              else if negb (fits_float raw) then raise OverflowError
              else
                let '(percent, step) := percent_to_step raw (max_step bridge) in
                _send_step now_send i bridge step
            else ret tt
        end
    end.

(** An event given by the entries of its [data] dictionary (distinct keys). *)
Definition event_of (entries : list (string * pyval)) : Event :=
  {| event_data := Some (list_to_map entries) |}.

(** ** A sample configuration *)

(** A manager as [KnxStepBridgeManager(hass, debounce_ms)] makes it for a
    [debounce_ms] within 0..5000 (see [new_manager_small]). *)
Definition empty_manager (debounce_ms : Z) : KnxStepBridgeManager :=
  {| bridges := [];
     _debounce := Binary64.ratio debounce_ms 1000;
     hass_calls := [] |}.

(** One bridge with three steps that sent a step when the clock read 0.125,
    under the default window of 500 ms. *)
Definition sample_bridge : Bridge :=
  {| name := "blind";
     step_address := "1/2/3";
     percent_address := "1/2/4";
     max_step := 3;
     last_sent_step_ts := Binary64.ratio 125 1000;
     last_sent_percent_ts := PrimFloat.zero |}.

Definition sample_manager : KnxStepBridgeManager :=
  add_bridge sample_bridge (empty_manager 500).

Definition sample_step_event : Event :=
  event_of [("address", VStr "1/2/3"); ("data", VStr "0x02")].

Definition sample_percent_event : Event :=
  event_of [("destination", VStr "1/2/4"); ("data", VList [VInt 171])].

(** The manager after [sample_percent_event] was handled at time 20 and its
    step sent at time 21: raw 171 is 67 percent, which is step 3. *)
Definition sample_manager_after_percent : KnxStepBridgeManager :=
  {| bridges :=
       [{| name := "blind";
           step_address := "1/2/3";
           percent_address := "1/2/4";
           max_step := 3;
           last_sent_step_ts := Binary64.of_int 21;
           last_sent_percent_ts := PrimFloat.zero |}];
     _debounce := Binary64.ratio 500 1000;
     hass_calls :=
       [{| call_address := "1/2/3"; call_payload := 3; call_type := "1byte_unsigned" |}] |}.

(** The bridge of the end-to-end scenario, without debounce. *)
Definition scenario_manager : KnxStepBridgeManager :=
  add_bridge (new_bridge "cover" "A" "B" 4) (empty_manager 0).

(** ** Reference definitions, after the wording of the specification *)

(** "Clamp [x] to [[lo, hi]]". *)
Definition spec_clamp (lo hi x : Z) : Z :=
  if x <? lo then lo else if hi <? x then hi else x.

(** [q] is the floor of the rational [n / d], for [d > 0]. *)
Definition is_floor_of (q n d : Z) : Prop := q * d <= n < (q + 1) * d.

(** [q] is the ceiling of the rational [n / d], for [d > 0]. *)
Definition is_ceil_of (q n d : Z) : Prop := (q - 1) * d < n <= q * d.

(** The float computation returned the integer [z]. *)
Definition option_Z_eqb (o : option Z) (z : Z) : bool :=
  match o with
  | Some y => y =? z
  | None => false
  end.

(** Bridges that agree on the four configured fields. *)
Definition same_config (b b' : Bridge) : Prop :=
  name b' = name b
  /\ step_address b' = step_address b
  /\ percent_address b' = percent_address b
  /\ max_step b' = max_step b.

(** The timestamp that the debounce check of an event on [address] reads:
    line 111 for the step address, line 119 otherwise. *)
Definition checked_ts (address : pyval) (bridge : Bridge) : PrimFloat.float :=
  if eq_str address (step_address bridge) then last_sent_step_ts bridge
  else last_sent_percent_ts bridge.

(** The send that answers an event on [address]: the converted value on the
    other address of the bridge. *)
Definition answer (address : pyval) (bridge : Bridge) (raw : Z) : ServiceCall :=
  if eq_str address (step_address bridge) then
    {| call_address := percent_address bridge;
       call_payload := step_to_percent raw (max_step bridge);
       call_type := "percent" |}
  else
    {| call_address := step_address bridge;
       call_payload := snd (percent_to_step raw (max_step bridge));
       call_type := "1byte_unsigned" |}.

(** The bridge after that send. *)
Definition answered (address : pyval) (now_send : PrimFloat.float) (bridge : Bridge) : Bridge :=
  if eq_str address (step_address bridge) then with_percent_ts now_send bridge
  else with_step_ts now_send bridge.

(** ** Configuration and set-up (lines 25-46 and 187-206) *)

(** One validated entry of [bridges]. *)
Record BridgeItem : Type := {
  item_name : string;
  item_step_address : string;
  item_percent_address : string;
  item_max_step : Z
}.

(** The validated configuration of the domain; [conf_debounce_ms] is [None]
    when the key is missing. A [DomainConf] always has its required
    [bridges] key, so it is a non-empty dictionary. *)
Record DomainConf : Type := {
  conf_bridges : list BridgeItem;
  conf_debounce_ms : option Z
}.

(** [BRIDGE_SCHEMA]: [max_step] is [vol.Range(min=1, max=255)]. *)
Definition valid_item (item : BridgeItem) : Prop := 1 <= item_max_step item <= 255.

(** [CONFIG_SCHEMA]: every entry passes [BRIDGE_SCHEMA]; [debounce_ms],
    500 when missing, is [vol.Range(min=0, max=5000)]. *)
Definition valid_conf (conf : DomainConf) : Prop :=
  Forall valid_item (conf_bridges conf)
  /\ 0 <= default 500 (conf_debounce_ms conf) <= 5000.

(** Lines 196-201. *)
Definition bridge_of_item (item : BridgeItem) : Bridge :=
  new_bridge (item_name item) (item_step_address item)
             (item_percent_address item) (item_max_step item).

(** [async_setup], up to the subscription to the bus: [Ok None] when the
    domain has no configuration ([return True] on line 190, no manager is
    made), else the manager stored in [hass.data[DOMAIN]], or the exception
    of the constructor. *)
Definition async_setup (conf : option DomainConf) : result (option KnxStepBridgeManager) :=
  match conf with
  | None => Ok None
  | Some conf =>
      let debounce_ms := default 500 (conf_debounce_ms conf) in
      match new_manager debounce_ms with
      | Ok mgr =>
          Ok (Some (fold_left (fun mgr item => add_bridge (bridge_of_item item) mgr)
                              (conf_bridges conf) mgr))
      | Err e => Err e
      end
  end.

(** A configuration with one bridge and no [debounce_ms] key, and the
    manager that set-up makes of it. *)
Definition sample_conf : DomainConf :=
  {| conf_bridges :=
       [{| item_name := "blind"; item_step_address := "1/2/3";
           item_percent_address := "1/2/4"; item_max_step := 3 |}];
     conf_debounce_ms := None |}.

Definition sample_setup : KnxStepBridgeManager :=
  add_bridge (new_bridge "blind" "1/2/3" "1/2/4" 3) (empty_manager 500).

(** The same with a window of 300 ms: the float 300 / 1000.0. *)
Definition sample_conf_300 : DomainConf :=
  {| conf_bridges := conf_bridges sample_conf; conf_debounce_ms := Some 300 |}.

Definition sample_setup_300 : KnxStepBridgeManager :=
  add_bridge (new_bridge "blind" "1/2/3" "1/2/4" 3) (empty_manager 300).

(** The check that the constructor succeeds on [ms] and stores the float
    [ms / 1000.0], a window within 0..5 seconds. *)
Definition window_checked (ms : Z) : bool :=
  match new_manager ms with
  | Ok mgr =>
      PrimFloat.Leibniz.eqb (_debounce mgr)
        (PrimFloat.div (Binary64.of_int ms) (Binary64.of_int 1000))
      && Binary64.leb_value PrimFloat.zero (_debounce mgr)
      && Binary64.leb_value (_debounce mgr) (Binary64.of_int 5)
  | Err _ => false
  end.

(** ** The stream of events *)

(** One call of the listener: the event and the two clock readings that its
    handling takes. *)
Record Delivery : Type := {
  d_now : PrimFloat.float;
  d_now_send : PrimFloat.float;
  d_event : Event
}.

(** The bus calls [_handle_knx_event] once per event, in arrival order. An
    exception ends that call only; the next event finds the manager as the
    call left it. *)
Fixpoint deliver (ds : list Delivery) (self : KnxStepBridgeManager) : KnxStepBridgeManager :=
  match ds with
  | [] => self
  | d :: ds' =>
      deliver ds' (snd (_handle_knx_event (d_now d) (d_now_send d) (d_event d) self))
  end.

(** The readings of a monotonic clock along a stream that starts at [t]. *)
Fixpoint monotonic_from (t : PrimFloat.float) (ds : list Delivery) : Prop :=
  match ds with
  | [] => True
  | d :: ds' =>
      Binary64.le t (d_now d)
      /\ Binary64.le (d_now d) (d_now_send d)
      /\ monotonic_from (d_now_send d) ds'
  end.

(** The clock after the stream. *)
Definition clock_after (t : PrimFloat.float) (ds : list Delivery) : PrimFloat.float :=
  fold_left (fun _ d => d_now_send d) ds t.

(** No timestamp of the bridge lies after [t]. *)
Definition sent_by (t : PrimFloat.float) (b : Bridge) : Prop :=
  Binary64.le (last_sent_step_ts b) t /\ Binary64.le (last_sent_percent_ts b) t.

(** Neither timestamp of [b'] lies before the one of [b]. *)
Definition ts_le (b b' : Bridge) : Prop :=
  Binary64.le (last_sent_step_ts b) (last_sent_step_ts b')
  /\ Binary64.le (last_sent_percent_ts b) (last_sent_percent_ts b').

(** The sample percent event, handled at time 20 with its send at 21. *)
Definition sample_stream : list Delivery :=
  [{| d_now := Binary64.of_int 20;
      d_now_send := Binary64.of_int 21;
      d_event := sample_percent_event |}].

(** ** Literals *)

(** Every character is a digit of the base. *)
Fixpoint all_digits (base : Z) (s : string) : bool :=
  match s with
  | EmptyString => true
  | String c s' =>
      match digit_in base c with
      | Some _ => all_digits base s'
      | None => false
      end
  end.

(** The number that a string of digits denotes, most significant first. *)
Fixpoint digits_value (base : Z) (acc : Z) (s : string) : Z :=
  match s with
  | EmptyString => acc
  | String c s' => digits_value base (acc * base + default 0 (digit_value c)) s'
  end.

(** The float computation of lines 123-132 as written. *)
Definition percent_to_step_binary64 (raw max_step : Z) : option (Z * Z) :=
  match Binary64.byte_to_percent raw with
  | Some percent =>
      match Binary64.percent_to_step_of percent max_step with
      | Some step => Some (percent, step)
      | None => None
      end
  | None => None
  end.

(** * Properties *)

(** ** Arithmetic of the built-ins *)

Lemma floor_div_spec (n d : Z) : 0 < d -> is_floor_of (Py.floor_div n d) n d.
Proof.
  intros Hd. unfold is_floor_of, Py.floor_div.
  pose proof (Z.div_mod n d ltac:(lia)) as Hdm.
  pose proof (Z.mod_pos_bound n d Hd) as Hr.
  nia.
Qed.

Lemma ceil_div_spec (n d : Z) : 0 < d -> is_ceil_of (Py.ceil_div n d) n d.
Proof.
  intros Hd. unfold is_ceil_of, Py.ceil_div.
  pose proof (Z.div_mod (- n) d ltac:(lia)) as Hdm.
  pose proof (Z.mod_pos_bound (- n) d Hd) as Hr.
  nia.
Qed.

Lemma floor_unique (q q' n d : Z) :
  0 < d -> is_floor_of q n d -> is_floor_of q' n d -> q = q'.
Proof. unfold is_floor_of. intros Hd H1 H2. nia. Qed.

Lemma ceil_unique (q q' n d : Z) :
  0 < d -> is_ceil_of q n d -> is_ceil_of q' n d -> q = q'.
Proof. unfold is_ceil_of. intros Hd H1 H2. nia. Qed.

Lemma clamp_is_spec_clamp (lo hi x : Z) :
  lo <= hi -> Z.max lo (Z.min hi x) = spec_clamp lo hi x.
Proof.
  intros Hle. unfold spec_clamp.
  destruct (Z.ltb_spec x lo); destruct (Z.ltb_spec hi x); lia.
Qed.

Lemma clamp_bounds (lo hi x : Z) : lo <= hi -> lo <= Z.max lo (Z.min hi x) <= hi.
Proof. lia. Qed.

(** ** Agreement with binary64 *)

Lemma option_Z_eqb_eq (o : option Z) (z : Z) : option_Z_eqb o z = true -> o = Some z.
Proof.
  destruct o as [y |]; cbn; [| discriminate].
  intros H. apply Z.eqb_eq in H. congruence.
Qed.

Lemma forallb_seqZ (f : Z -> bool) (a n x : Z) :
  forallb f (seqZ a n) = true -> a <= x < a + n -> f x = true.
Proof.
  intros Hall Hx. rewrite forallb_forall in Hall. apply Hall.
  apply list_elem_of_In, elem_of_seqZ. exact Hx.
Qed.

Lemma step_to_percent_table :
  forallb (fun max_step =>
             forallb (fun step =>
                        option_Z_eqb (Binary64.step_to_percent step max_step)
                                     (step_to_percent step max_step))
                     (seqZ 0 (max_step + 1)))
          (seqZ 1 255) = true.
Proof. vm_compute. reflexivity. Qed.

Lemma byte_to_percent_table :
  forallb (fun raw => option_Z_eqb (Binary64.byte_to_percent raw) (byte_to_percent raw))
          (seqZ 0 256) = true.
Proof. vm_compute. reflexivity. Qed.

Lemma percent_to_step_of_table :
  forallb (fun max_step =>
             forallb (fun percent =>
                        option_Z_eqb (Binary64.percent_to_step_of percent max_step)
                                     (percent_to_step_of percent max_step))
                     (seqZ 0 101))
          (seqZ 1 255) = true.
Proof. vm_compute. reflexivity. Qed.

(** Lines 113-114 on floats return what the integer model returns, for every
    integer [raw] and [max_step] in 1..255. *)
Lemma step_to_percent_binary64 (raw max_step : Z) :
  1 <= max_step <= 255 ->
  Binary64.step_to_percent raw max_step = Some (step_to_percent raw max_step).
Proof.
  intros Hm.
  pose proof (forallb_seqZ _ _ _ max_step step_to_percent_table ltac:(lia)) as Hrow.
  cbn beta in Hrow.
  pose proof (forallb_seqZ _ _ _ (Z.max 0 (Z.min max_step raw)) Hrow ltac:(lia)) as Hcell.
  cbn beta in Hcell. apply option_Z_eqb_eq in Hcell.
  unfold Binary64.step_to_percent, step_to_percent in *.
  replace (Z.max 0 (Z.min max_step (Z.max 0 (Z.min max_step raw))))
    with (Z.max 0 (Z.min max_step raw)) in Hcell by lia.
  exact Hcell.
Qed.

(** Lines 123-124 on floats return what the integer model returns, for every
    raw byte. *)
Lemma byte_to_percent_binary64 (raw : Z) :
  0 <= raw <= 255 ->
  Binary64.byte_to_percent raw = Some (byte_to_percent raw).
Proof.
  intros Hraw. apply option_Z_eqb_eq.
  exact (forallb_seqZ _ _ _ raw byte_to_percent_table ltac:(lia)).
Qed.

(** Lines 127-132 on floats return what the integer model returns, for every
    clamped percent and [max_step] in 1..255. *)
Lemma percent_to_step_of_binary64 (percent max_step : Z) :
  0 <= percent <= 100 -> 1 <= max_step <= 255 ->
  Binary64.percent_to_step_of percent max_step = Some (percent_to_step_of percent max_step).
Proof.
  intros Hp Hm. apply option_Z_eqb_eq.
  pose proof (forallb_seqZ _ _ _ max_step percent_to_step_of_table ltac:(lia)) as Hrow.
  cbn beta in Hrow.
  exact (forallb_seqZ _ _ _ percent Hrow ltac:(lia)).
Qed.

(** ** Unit conversion *)

Lemma step_to_percent_range (raw max_step : Z) :
  1 <= max_step -> 0 <= step_to_percent raw max_step <= 100.
Proof.
  intros Hm. unfold step_to_percent.
  pose proof (clamp_bounds 0 max_step raw ltac:(lia)) as Hs.
  pose proof (floor_div_spec (Z.max 0 (Z.min max_step raw) * 100) max_step ltac:(lia)) as Hf.
  unfold is_floor_of in Hf. nia.
Qed.

(** C1. For every integer [step], in range or not, and every [max_step] in
    1..255, [step_to_percent] is the floor of [s * 100 / max_step] where [s]
    is [step] clamped to [[0, max_step]], and the result lies in [[0, 100]];
    the float computation of lines 113-114 returns this very integer. *)
Theorem step_to_percent_clamps_then_floors (step max_step : Z) :
  1 <= max_step <= 255 ->
  is_floor_of (step_to_percent step max_step)
              (spec_clamp 0 max_step step * 100) max_step
  /\ 0 <= step_to_percent step max_step <= 100
  /\ Binary64.step_to_percent step max_step = Some (step_to_percent step max_step).
Proof.
  intros Hm. split; [| split].
  - rewrite <- clamp_is_spec_clamp by lia.
    unfold step_to_percent. apply floor_div_spec. lia.
  - apply step_to_percent_range. lia.
  - apply step_to_percent_binary64. exact Hm.
Qed.

Lemma step_to_percent_clamps_then_floors_witness :
  is_floor_of (step_to_percent 7 3) (spec_clamp 0 3 7 * 100) 3
  /\ 0 <= step_to_percent 7 3 <= 100
  /\ Binary64.step_to_percent 7 3 = Some (step_to_percent 7 3).
Proof. apply (step_to_percent_clamps_then_floors 7 3). lia. Defined.

(** C9. For a fixed [max_step] in 1..255, [step_to_percent] is monotonic
    non-decreasing in [step], and [step_to_percent max_step max_step] is 100. *)
Theorem step_to_percent_monotone (step1 step2 max_step : Z) :
  1 <= max_step <= 255 ->
  step1 <= step2 ->
  step_to_percent step1 max_step <= step_to_percent step2 max_step
  /\ step_to_percent max_step max_step = 100.
Proof.
  intros Hm Hle. unfold step_to_percent, Py.floor_div. split.
  - apply Z.div_le_mono; lia.
  - replace (Z.max 0 (Z.min max_step max_step)) with max_step by lia.
    rewrite Z.mul_comm. apply Z.div_mul. lia.
Qed.

Lemma step_to_percent_monotone_witness :
  step_to_percent (-2) 3 <= step_to_percent 2 3 /\ step_to_percent 3 3 = 100.
Proof. apply (step_to_percent_monotone (-2) 2 3); lia. Defined.

Lemma percent_to_step_of_bounds (percent max_step : Z) :
  0 <= max_step -> 0 <= percent -> 0 <= percent_to_step_of percent max_step <= max_step.
Proof.
  intros Hm Hp. unfold percent_to_step_of.
  destruct (Z.leb_spec percent 0); [lia |].
  pose proof (ceil_div_spec (percent * max_step) 100 ltac:(lia)) as Hc.
  unfold is_ceil_of in Hc.
  destruct (Z.gtb_spec (Py.ceil_div (percent * max_step) 100) max_step); nia.
Qed.

Lemma percent_to_step_of_ceil (percent max_step : Z) :
  0 <= max_step -> 1 <= percent <= 100 ->
  is_ceil_of (percent_to_step_of percent max_step) (percent * max_step) 100.
Proof.
  intros Hm Hp. unfold percent_to_step_of.
  destruct (Z.leb_spec percent 0); [lia |].
  pose proof (ceil_div_spec (percent * max_step) 100 ltac:(lia)) as Hc.
  destruct (Z.gtb_spec (Py.ceil_div (percent * max_step) 100) max_step); [| exact Hc].
  unfold is_ceil_of in *. nia.
Qed.

Lemma byte_to_percent_range (raw : Z) : 0 <= byte_to_percent raw <= 100.
Proof. unfold byte_to_percent. lia. Qed.

(** C2. For every [max_step] in 1..255 the raw byte 0 gives step 0 and the
    raw byte 255 gives step [max_step]; with [max_step = 3], an input whose
    clamped percent is 33, 34, 66, 67 or 100 gives step 1, 2, 2, 3 or 3, and
    the raw byte 255 gives step 3. *)
Theorem percent_to_step_boundaries (max_step raw : Z) :
  1 <= max_step <= 255 ->
  snd (percent_to_step 0 max_step) = 0
  /\ snd (percent_to_step 255 max_step) = max_step
  /\ (fst (percent_to_step raw 3) = 33 -> snd (percent_to_step raw 3) = 1)
  /\ (fst (percent_to_step raw 3) = 34 -> snd (percent_to_step raw 3) = 2)
  /\ (fst (percent_to_step raw 3) = 66 -> snd (percent_to_step raw 3) = 2)
  /\ (fst (percent_to_step raw 3) = 67 -> snd (percent_to_step raw 3) = 3)
  /\ (fst (percent_to_step raw 3) = 100 -> snd (percent_to_step raw 3) = 3)
  /\ percent_to_step 255 3 = (100, 3).
Proof.
  intros Hm. unfold percent_to_step. cbn [fst snd].
  repeat split; try (intros ->; reflexivity).
  change (byte_to_percent 255) with 100.
  pose proof (percent_to_step_of_ceil 100 max_step ltac:(lia) ltac:(lia)) as Hc.
  pose proof (percent_to_step_of_bounds 100 max_step ltac:(lia) ltac:(lia)) as Hb.
  unfold is_ceil_of in Hc. lia.
Qed.

Lemma percent_to_step_boundaries_witness :
  snd (percent_to_step 0 3) = 0
  /\ snd (percent_to_step 255 3) = 3
  /\ percent_to_step 84 3 = (33, 1)
  /\ percent_to_step 87 3 = (34, 2)
  /\ percent_to_step 168 3 = (66, 2)
  /\ percent_to_step 171 3 = (67, 3).
Proof.
  pose proof (percent_to_step_boundaries 3 84 ltac:(lia)) as (H0 & H255 & H33 & _).
  pose proof (percent_to_step_boundaries 3 87 ltac:(lia)) as (_ & _ & _ & H34 & _).
  pose proof (percent_to_step_boundaries 3 168 ltac:(lia)) as (_ & _ & _ & _ & H66 & _).
  pose proof (percent_to_step_boundaries 3 171 ltac:(lia)) as (_ & _ & _ & _ & _ & H67 & _).
  split; [exact H0 |]. split; [exact H255 |].
  split; [| split; [| split]].
  - rewrite (surjective_pairing (percent_to_step 84 3)), (H33 eq_refl). reflexivity.
  - rewrite (surjective_pairing (percent_to_step 87 3)), (H34 eq_refl). reflexivity.
  - rewrite (surjective_pairing (percent_to_step 168 3)), (H66 eq_refl). reflexivity.
  - rewrite (surjective_pairing (percent_to_step 171 3)), (H67 eq_refl). reflexivity.
Defined.

(** C3, as stated, does not hold: with [max_step = 3] the percent 67 already
    gives step 3 (line 130: [ceil(67 * 3 / 100.0)] is 3). *)
Lemma max_step_reached_below_100 :
  ~ (forall max_step percent : Z,
        1 <= max_step <= 255 -> 0 <= percent <= 100 ->
        (1 <= percent -> 1 <= percent_to_step_of percent max_step)
        /\ (percent_to_step_of percent max_step = max_step -> percent = 100)).
Proof.
  intros H.
  destruct (H 3 67 ltac:(lia) ltac:(lia)) as [_ H67].
  specialize (H67 eq_refl). discriminate H67.
Qed.

(** C3, amended. For every [max_step] in 1..255 and clamped percent in
    0..100: a percent of at least 1 gives a step of at least 1; percent 100
    gives [max_step]; the step equals [max_step] exactly when
    [percent > 100 - 100 / max_step], which for [max_step >= 100] means
    only at percent 100. *)
Theorem percent_to_step_ceil_rule (max_step percent : Z) :
  1 <= max_step <= 255 ->
  0 <= percent <= 100 ->
  (1 <= percent -> 1 <= percent_to_step_of percent max_step)
  /\ (percent = 100 -> percent_to_step_of percent max_step = max_step)
  /\ (percent_to_step_of percent max_step = max_step
      <-> 100 * (max_step - 1) < percent * max_step)
  /\ (100 <= max_step ->
      percent_to_step_of percent max_step = max_step -> percent = 100).
Proof.
  intros Hm Hp.
  destruct (Z.eq_dec percent 0) as [-> | Hnz].
  - change (percent_to_step_of 0 max_step) with 0. lia.
  - pose proof (percent_to_step_of_ceil percent max_step ltac:(lia) ltac:(lia)) as Hc.
    pose proof (percent_to_step_of_bounds percent max_step ltac:(lia) ltac:(lia)) as Hb.
    unfold is_ceil_of in Hc.
    repeat split; intros; nia.
Qed.

Lemma percent_to_step_ceil_rule_witness :
  (1 <= 1 -> 1 <= percent_to_step_of 1 200)
  /\ (1 = 100 -> percent_to_step_of 1 200 = 200)
  /\ (percent_to_step_of 1 200 = 200 <-> 100 * (200 - 1) < 1 * 200)
  /\ (100 <= 200 -> percent_to_step_of 1 200 = 200 -> 1 = 100).
Proof. apply (percent_to_step_ceil_rule 200 1); lia. Defined.

(** ** Payload decoder *)

(** C7. A native integer is returned as it is; ["0x1A"] decodes to 26,
    ["42"] to 42, the list [[7, 9]] to 7 and the byte string [b"\x05"] to 5;
    ["not-a-number"] and the empty list give the absent result. *)
Theorem payload_decoding_examples :
  (forall n : Z, _payload_to_int (VInt n) = Ok (Some n))
  /\ _payload_to_int (VStr "0x1A") = Ok (Some 26)
  /\ _payload_to_int (VStr "42") = Ok (Some 42)
  /\ _payload_to_int (VList [VInt 7; VInt 9]) = Ok (Some 7)
  /\ _payload_to_int (VBytes [Byte.x05]) = Ok (Some 5)
  /\ _payload_to_int (VStr "not-a-number") = Ok None
  /\ _payload_to_int (VList []) = Ok None.
Proof. repeat split. Qed.

(** C8, as stated, does not hold: a negative native integer is returned as
    it is (line 139), and ["-5"] decodes to -5 (line 142). *)
Lemma decoder_returns_negative :
  ~ (forall (payload : pyval) (v : Z),
        _payload_to_int payload = Ok (Some v) -> 0 <= v).
Proof.
  intros H. specialize (H (VInt (-5)) (-5) eq_refl). lia.
Qed.

Example decoder_negative_string : _payload_to_int (VStr "-5") = Ok (Some (-5)).
Proof. reflexivity. Qed.

Lemma digit_value_nonneg (c : ascii) (d : Z) :
  digit_value c = Some d -> 0 <= d.
Proof.
  unfold digit_value.
  repeat match goal with
         | |- context [?x <=? ?y] => destruct (Z.leb_spec x y)
         end; cbn; intros [= <-]; lia.
Qed.

Lemma digit_in_nonneg (base : Z) (c : ascii) (d : Z) :
  digit_in base c = Some d -> 0 <= d.
Proof.
  unfold digit_in.
  destruct (digit_value c) as [d' |] eqn:Hd; [| discriminate].
  destruct (d' <? base); [| discriminate].
  intros [= <-]. exact (digit_value_nonneg _ _ Hd).
Qed.

Lemma scan_digits_nonneg (base : Z) (s : string) :
  0 <= base ->
  forall (prev : bool) (acc v : Z) (rest : string),
    0 <= acc -> scan_digits base prev acc s = Some (v, rest) -> 0 <= v.
Proof.
  intros Hb. induction s as [| c s IH]; intros prev acc v rest Hacc; cbn.
  - destruct prev; [discriminate |]. intros [= <- _]. exact Hacc.
  - destruct (Ascii.eqb c "_").
    + destruct prev; [discriminate |]. apply IH. exact Hacc.
    + destruct (digit_in base c) as [d |] eqn:Hd.
      * apply IH. pose proof (digit_in_nonneg _ _ _ Hd). nia.
      * destruct prev; [discriminate |]. intros [= <- _]. exact Hacc.
Qed.

Lemma parse_digits_nonneg (base : Z) (s rest : string) (v : Z) :
  0 <= base -> parse_digits base s = Some (v, rest) -> 0 <= v.
Proof.
  intros Hb. destruct s as [| c s]; cbn; [discriminate |].
  destruct (digit_in base c) as [d |] eqn:Hd; [| discriminate].
  apply scan_digits_nonneg; [exact Hb |]. exact (digit_in_nonneg _ _ _ Hd).
Qed.

Lemma parse_sign_negative (s rest : string) :
  parse_sign s = (true, rest) -> starts_with "-" s = true.
Proof.
  destruct s as [| c s]; cbn; [discriminate |].
  destruct (Ascii.eqb c "+"); [discriminate |].
  destruct (Ascii.eqb c "-"); [reflexivity | discriminate].
Qed.

(** A parsed literal is negative only if it carries a minus sign. *)
Lemma parse_int_sign (sp : ascii -> bool) (base : Z) (s : string) (v : Z) :
  0 <= base ->
  parse_int sp base s = Some v ->
  v < 0 -> starts_with "-" (skip_spaces sp s) = true.
Proof.
  intros Hb. unfold parse_int.
  destruct (parse_sign (skip_spaces sp s)) as [negative s1] eqn:Hs.
  destruct (parse_digits base (skip_base_prefix base s1)) as [[w rest] |] eqn:Hd;
    [| discriminate].
  pose proof (parse_digits_nonneg _ _ _ _ Hb Hd) as Hw.
  destruct (_ && _); [discriminate |].
  destruct (skip_spaces sp rest); [| discriminate].
  intros [= <-] Hneg. destruct negative; [| lia].
  exact (parse_sign_negative _ _ Hs).
Qed.

Lemma prefix_0x_no_minus (s : string) :
  String.prefix "0x" s = true -> starts_with "-" (skip_spaces is_space_str s) = false.
Proof.
  intros H. apply String.prefix_correct in H.
  destruct s as [| c s]; [discriminate H |].
  cbn in H. injection H as -> _. reflexivity.
Qed.

(** C8, amended. Whenever the decoder returns a value it is an integer that
    may be negative: a native integer is returned as it is, a string gives a
    negative value only if its literal starts (after white space) with a
    minus sign, and a list or tuple gives [int] of its first element. The
    value is non-negative for a byte sequence (0..255), for a boolean and for
    a string starting with [0x]. *)
Theorem decoded_value_sign (payload : pyval) (v : Z) :
  _payload_to_int payload = Ok (Some v) ->
  match payload with
  | VInt n => v = n
  | VBool b => v = Z.b2z b /\ 0 <= v <= 1
  | VBytes _ => 0 <= v <= 255
  | VStr s =>
      (String.prefix "0x" s = true -> 0 <= v)
      /\ (v < 0 -> starts_with "-" (skip_spaces is_space_str s) = true)
  | VList (x :: _) | VTuple (x :: _) => int_ x = Ok v
  | _ => False
  end.
Proof.
  destruct payload as [| b | n | f | s | bs | l | l]; cbn.
  - discriminate.
  - intros [= <-]. destruct b; cbn; lia.
  - intros [= <-]. reflexivity.
  - discriminate.
  - intros H.
    assert (Hparse : exists base, 0 <= base /\ parse_int is_space_str base s = Some v).
    { destruct (String.prefix "0x" s).
      - exists 16. split; [lia |]. unfold int_base16 in H.
        destruct (parse_int is_space_str 16 s); cbn in H; congruence.
      - exists 10. split; [lia |].
        destruct (parse_int is_space_str 10 s); cbn in H; congruence. }
    destruct Hparse as (base & Hbase & Hparse).
    pose proof (parse_int_sign _ _ _ _ Hbase Hparse) as Hsign.
    split; [| exact Hsign].
    intros Hpre. pose proof (prefix_0x_no_minus _ Hpre) as Hno.
    destruct (Z.lt_ge_cases v 0) as [Hneg | Hpos]; [| lia].
    specialize (Hsign Hneg). congruence.
  - destruct bs as [| b bs]; [discriminate |]. intros [= <-].
    pose proof (Byte.to_N_bounded b). lia.
  - destruct l as [| x l]; [discriminate |].
    destruct (int_ x) as [n | []]; congruence.
  - destruct l as [| x l]; [discriminate |].
    destruct (int_ x) as [n | []]; congruence.
Qed.

(** The string [" -5"] decodes to the negative value -5: its literal starts,
    after the space, with a minus sign. *)
Lemma decoded_value_sign_witness :
  _payload_to_int (VStr " -5") = Ok (Some (-5))
  /\ (String.prefix "0x" " -5" = true -> 0 <= -5)
  /\ (-5 < 0 -> starts_with "-" (skip_spaces is_space_str " -5") = true).
Proof.
  split; [reflexivity |].
  apply (decoded_value_sign (VStr " -5") (-5)). reflexivity.
Defined.

(** ** Bridge registry *)

Lemma find_from_spec (bs : list Bridge) (address : pyval) :
  forall (k i : nat) (b : Bridge),
    find_from k bs address = Some (i, b) ->
    (k <= i)%nat /\ bs !! (i - k)%nat = Some b /\ owns b address = true.
Proof.
  induction bs as [| b0 bs IH]; intros k i b; cbn; [discriminate |].
  destruct (owns b0 address) eqn:Hown.
  - intros [= <- <-]. rewrite Nat.sub_diag. auto.
  - intros H. apply IH in H as (Hle & Hlook & Hb).
    split; [lia |]. split; [| exact Hb].
    replace (i - k)%nat with (S (i - S k)) by lia. exact Hlook.
Qed.

Lemma find_bridge_lookup (self : KnxStepBridgeManager) (address : pyval) (i : nat) (b : Bridge) :
  _find_bridge_by_address self address = Some (i, b) ->
  bridges self !! i = Some b /\ owns b address = true.
Proof.
  intros H. apply find_from_spec in H as (_ & Hlook & Hown).
  rewrite Nat.sub_0_r in Hlook. auto.
Qed.

(** ** Event handler *)

Lemma send_percent_eq (now_send : PrimFloat.float) (i : nat) (bridge : Bridge) (percent : Z)
    (self : KnxStepBridgeManager) :
  _send_percent now_send i bridge percent self =
  (Ok tt,
   {| bridges :=
        <[i := with_percent_ts now_send bridge]> (bridges self);
      _debounce := _debounce self;
      hass_calls :=
        hass_calls self ++ [{| call_address := percent_address bridge;
                               call_payload := Z.max 0 (Z.min 100 percent);
                               call_type := "percent" |}] |}).
Proof. reflexivity. Qed.

Lemma send_step_eq (now_send : PrimFloat.float) (i : nat) (bridge : Bridge) (step : Z)
    (self : KnxStepBridgeManager) :
  _send_step now_send i bridge step self =
  (Ok tt,
   {| bridges :=
        <[i := with_step_ts now_send bridge]> (bridges self);
      _debounce := _debounce self;
      hass_calls :=
        hass_calls self ++ [{| call_address := step_address bridge;
                               call_payload := Z.max 0 (Z.min (max_step bridge) step);
                               call_type := "1byte_unsigned" |}] |}).
Proof. reflexivity. Qed.

(** The handler with the plumbing of [M] unfolded. *)
Lemma handle_unfold (now now_send : PrimFloat.float) (event : Event) (self : KnxStepBridgeManager) :
  _handle_knx_event now now_send event self =
  if negb (truthy (event_address event)) || is_None (event_payload event)
  then (Ok tt, self)
  else
    match _find_bridge_by_address self (event_address event) with
    | None => (Ok tt, self)
    | Some (i, bridge) =>
        match _payload_to_int (event_payload event) with
        | Err e => (Err e, self)
        | Ok None => (Ok tt, self)
        | Ok (Some raw) =>
            if eq_str (event_address event) (step_address bridge) then
              if PrimFloat.ltb (PrimFloat.sub now (last_sent_step_ts bridge)) (_debounce self) then (Ok tt, self)
              else if max_step bridge =? 0 then (Err ZeroDivisionError, self)
              else _send_percent now_send i bridge
                     (step_to_percent raw (max_step bridge)) self
            else if eq_str (event_address event) (percent_address bridge) then
              if PrimFloat.ltb (PrimFloat.sub now (last_sent_percent_ts bridge)) (_debounce self) then (Ok tt, self)
              else if negb (fits_float raw) then (Err OverflowError, self)
              else _send_step now_send i bridge
                     (snd (percent_to_step raw (max_step bridge))) self
            else (Ok tt, self)
        end
    end.
Proof.
  unfold _handle_knx_event.
  destruct (negb (truthy (event_address event)) || is_None (event_payload event));
    [reflexivity |].
  unfold bind, get_self, lift.
  destruct (_find_bridge_by_address self (event_address event)) as [[i bridge] |];
    [| reflexivity].
  destruct (_payload_to_int (event_payload event)) as [[raw |] | e]; try reflexivity.
  repeat match goal with
         | |- context [if ?c then _ else _] => destruct c
         end; reflexivity.
Qed.

(** The handler returns without effect, raises without effect, or performs
    exactly one of the two sends on the bridge that owns the address. *)
Lemma handle_cases (now now_send : PrimFloat.float) (event : Event) (self : KnxStepBridgeManager) :
  _handle_knx_event now now_send event self = (Ok tt, self)
  \/ (exists e, _handle_knx_event now now_send event self = (Err e, self))
  \/ (exists i bridge raw,
        _find_bridge_by_address self (event_address event) = Some (i, bridge)
        /\ _payload_to_int (event_payload event) = Ok (Some raw)
        /\ (_handle_knx_event now now_send event self =
              _send_percent now_send i bridge (step_to_percent raw (max_step bridge)) self
            \/ _handle_knx_event now now_send event self =
              _send_step now_send i bridge (snd (percent_to_step raw (max_step bridge))) self)).
Proof.
  rewrite handle_unfold.
  destruct (negb (truthy (event_address event)) || is_None (event_payload event));
    [left; reflexivity |].
  destruct (_find_bridge_by_address self (event_address event)) as [[i bridge] |] eqn:Hfind;
    [| left; reflexivity].
  destruct (_payload_to_int (event_payload event)) as [[raw |] | e] eqn:Hdec;
    [| left; reflexivity | right; left; eauto].
  destruct (eq_str (event_address event) (step_address bridge)).
  - destruct (PrimFloat.ltb _ _); [left; reflexivity |].
    destruct (max_step bridge =? 0); [right; left; eexists; reflexivity |].
    right; right. exists i, bridge, raw. auto.
  - destruct (eq_str (event_address event) (percent_address bridge)); [| left; reflexivity].
    destruct (PrimFloat.ltb _ _); [left; reflexivity |].
    destruct (negb (fits_float raw)); [right; left; eexists; reflexivity |].
    right; right. exists i, bridge, raw. auto.
Qed.

Lemma app_singleton_neq {A} (l : list A) (x : A) : l ++ [x] <> l.
Proof.
  intros H. apply (f_equal length) in H. rewrite length_app in H. cbn in H. lia.
Qed.

Lemma send_percent_not_drop (now_send : PrimFloat.float) (i : nat) (bridge : Bridge) (percent : Z)
    (self : KnxStepBridgeManager) :
  _send_percent now_send i bridge percent self <> (Ok tt, self).
Proof.
  rewrite send_percent_eq. intros H.
  apply (f_equal (fun p => hass_calls (snd p))) in H. cbn in H.
  exact (app_singleton_neq _ _ H).
Qed.

Lemma send_step_not_drop (now_send : PrimFloat.float) (i : nat) (bridge : Bridge) (step : Z)
    (self : KnxStepBridgeManager) :
  _send_step now_send i bridge step self <> (Ok tt, self).
Proof.
  rewrite send_step_eq. intros H.
  apply (f_equal (fun p => hass_calls (snd p))) in H. cbn in H.
  exact (app_singleton_neq _ _ H).
Qed.

Lemma decoded_not_None (payload : pyval) (raw : Z) :
  _payload_to_int payload = Ok (Some raw) -> is_None payload = false.
Proof. destruct payload; [discriminate | reflexivity ..]. Qed.

(** C4. An event that reaches the debounce check (address and payload
    present, bridge found, payload decoded) is dropped without a send iff
    [now] minus the last-sent timestamp of its direction is strictly below
    the debounce window, in the float arithmetic of lines 111 and 119. With
    a window of 0.5 s ([debounce_ms = 500]), an event on the step address
    for which that difference is 0.3 s is dropped; when it is 0.6 s, the
    event is processed and the percent send goes out. *)
Theorem debounce_suppresses_iff_within_window
    (now now_send : PrimFloat.float) (event : Event) (self : KnxStepBridgeManager)
    (i : nat) (bridge : Bridge) (raw : Z) :
  truthy (event_address event) = true ->
  _find_bridge_by_address self (event_address event) = Some (i, bridge) ->
  _payload_to_int (event_payload event) = Ok (Some raw) ->
  (_handle_knx_event now now_send event self = (Ok tt, self)
   <-> PrimFloat.ltb (PrimFloat.sub now (checked_ts (event_address event) bridge))
                     (_debounce self) = true)
  /\ (eq_str (event_address event) (step_address bridge) = true ->
      _debounce self = PrimFloat.div (Binary64.of_int 500) (Binary64.of_int 1000) ->
      (PrimFloat.sub now (last_sent_step_ts bridge) = Binary64.ratio 3 10 ->
       _handle_knx_event now now_send event self = (Ok tt, self))
      /\ (PrimFloat.sub now (last_sent_step_ts bridge) = Binary64.ratio 6 10 ->
          valid_bridge bridge ->
          exists self',
            _handle_knx_event now now_send event self = (Ok tt, self')
            /\ hass_calls self' =
               hass_calls self ++
               [{| call_address := percent_address bridge;
                   call_payload := step_to_percent raw (max_step bridge);
                   call_type := "percent" |}])).
Proof.
  intros Haddr Hfind Hdec.
  pose proof (find_bridge_lookup _ _ _ _ Hfind) as [_ Hown].
  pose proof (decoded_not_None _ _ Hdec) as Hpay.
  rewrite handle_unfold, Haddr, Hpay, Hfind, Hdec. cbn [negb orb].
  unfold checked_ts, owns in *.
  destruct (eq_str (event_address event) (step_address bridge)) eqn:Hstep.
  - split.
    + destruct (PrimFloat.ltb _ _) eqn:Hlt; [tauto |].
      split; [| discriminate].
      intros H. exfalso. destruct (max_step bridge =? 0); [discriminate H |].
      exact (send_percent_not_drop _ _ _ _ _ H).
    + intros _ Hwin. rewrite Hwin. split.
      * intros Hdt. rewrite Hdt.
        change (PrimFloat.ltb (Binary64.ratio 3 10)
                  (PrimFloat.div (Binary64.of_int 500) (Binary64.of_int 1000)))
          with true.
        reflexivity.
      * intros Hdt Hvalid. rewrite Hdt.
        change (PrimFloat.ltb (Binary64.ratio 6 10)
                  (PrimFloat.div (Binary64.of_int 500) (Binary64.of_int 1000)))
          with false.
        cbv iota. unfold valid_bridge in Hvalid.
        destruct (Z.eqb_spec (max_step bridge) 0) as [H0 | _]; [lia |].
        rewrite send_percent_eq. eexists. split; [reflexivity |]. cbn.
        pose proof (step_to_percent_range raw (max_step bridge) ltac:(lia)).
        do 3 f_equal. lia.
  - cbn in Hown. rewrite Hown. split; [| discriminate].
    destruct (PrimFloat.ltb _ _) eqn:Hlt; [tauto |].
    split; [| discriminate].
    intros H. exfalso. destruct (negb (fits_float raw)); [discriminate H |].
    exact (send_step_not_drop _ _ _ _ _ H).
Qed.

(** The sample bridge sent a step at 0.125; the events arrive at 0.425 and
    at 0.725, and the float differences are 0.3 and 0.6. *)
Lemma debounce_suppresses_iff_within_window_witness :
  _handle_knx_event (Binary64.ratio 425 1000) (Binary64.of_int 1)
    sample_step_event sample_manager = (Ok tt, sample_manager)
  /\ exists self',
      _handle_knx_event (Binary64.ratio 725 1000) (Binary64.of_int 1)
        sample_step_event sample_manager = (Ok tt, self')
      /\ hass_calls self' =
         [{| call_address := "1/2/4"; call_payload := 66; call_type := "percent" |}].
Proof.
  split.
  - apply (debounce_suppresses_iff_within_window
             (Binary64.ratio 425 1000) (Binary64.of_int 1)
             sample_step_event sample_manager 0 sample_bridge 2);
      reflexivity.
  - apply (debounce_suppresses_iff_within_window
             (Binary64.ratio 725 1000) (Binary64.of_int 1)
             sample_step_event sample_manager 0 sample_bridge 2);
      try reflexivity.
    unfold valid_bridge. cbn. lia.
Defined.

(** C5. An event that is dropped - address or payload missing, no bridge
    owning the address, payload not decodable, or suppressed by the debounce
    check - makes the handler return normally with the manager as it was: no
    send is dispatched and no bridge, timestamps included, changes. *)
Theorem dropped_event_changes_nothing
    (now now_send : PrimFloat.float) (event : Event) (self : KnxStepBridgeManager) :
  truthy (event_address event) = false
  \/ event_payload event = VNone
  \/ _find_bridge_by_address self (event_address event) = None
  \/ _payload_to_int (event_payload event) = Ok None
  \/ (exists i bridge raw,
        _find_bridge_by_address self (event_address event) = Some (i, bridge)
        /\ _payload_to_int (event_payload event) = Ok (Some raw)
        /\ PrimFloat.ltb (PrimFloat.sub now (checked_ts (event_address event) bridge))
                         (_debounce self) = true) ->
  _handle_knx_event now now_send event self = (Ok tt, self).
Proof.
  rewrite handle_unfold.
  intros [Haddr | [Hpay | [Hfind | [Hdec | (i & bridge & raw & Hfind & Hdec & Hlt)]]]].
  - rewrite Haddr. reflexivity.
  - rewrite Hpay. cbn. rewrite orb_true_r. reflexivity.
  - rewrite Hfind. destruct (_ || _); reflexivity.
  - rewrite Hdec. destruct (_ || _); [reflexivity |].
    destruct (_find_bridge_by_address _ _) as [[i bridge] |]; reflexivity.
  - rewrite Hfind, Hdec. destruct (_ || _); [reflexivity |].
    unfold checked_ts in Hlt.
    destruct (eq_str (event_address event) (step_address bridge)).
    + rewrite Hlt. reflexivity.
    + rewrite Hlt. destruct (eq_str _ _); reflexivity.
Qed.

Lemma dropped_event_changes_nothing_witness :
  _handle_knx_event (Binary64.ratio 425 1000) (Binary64.of_int 1)
    sample_step_event sample_manager = (Ok tt, sample_manager)
  /\ _handle_knx_event (Binary64.of_int 20) (Binary64.of_int 21)
       (event_of [("address", VStr "9/9/9"); ("data", VInt 1)])
       sample_manager = (Ok tt, sample_manager)
  /\ _handle_knx_event (Binary64.of_int 20) (Binary64.of_int 21)
       (event_of [("address", VStr "1/2/3"); ("data", VStr "up")])
       sample_manager = (Ok tt, sample_manager)
  /\ _handle_knx_event (Binary64.of_int 20) (Binary64.of_int 21)
       (event_of [("data", VInt 1)])
       sample_manager = (Ok tt, sample_manager).
Proof.
  repeat apply conj; apply dropped_event_changes_nothing.
  - do 4 right. exists 0%nat, sample_bridge, 2. repeat apply conj; reflexivity.
  - do 2 right. left. reflexivity.
  - do 3 right. left. reflexivity.
  - left. reflexivity.
Defined.

(** Neither does an event whose handling raises: the exception leaves before
    any assignment or service call. *)
Lemma raised_event_changes_nothing
    (now now_send : PrimFloat.float) (event : Event) (self self' : KnxStepBridgeManager) (e : exn) :
  _handle_knx_event now now_send event self = (Err e, self') -> self' = self.
Proof.
  intros Hrun.
  destruct (handle_cases now now_send event self)
    as [H | [[e' H] | (i & bridge & raw & _ & _ & [H | H])]];
    rewrite H in Hrun.
  - discriminate Hrun.
  - congruence.
  - rewrite send_percent_eq in Hrun. discriminate Hrun.
  - rewrite send_step_eq in Hrun. discriminate Hrun.
Qed.

(** A list payload headed by an infinite float makes [int] raise
    [OverflowError], which line 148 does not catch. *)
Example infinite_float_payload_raises :
  _handle_knx_event (Binary64.of_int 20) (Binary64.of_int 21)
    (event_of [("address", VStr "1/2/3"); ("data", VList [VFloat FInf])])
    sample_manager
  = (Err OverflowError, sample_manager).
Proof. reflexivity. Qed.

(** C6. Whatever the event and whatever integer its payload decodes to
    (negative or above 255 included), the calls that the handler dispatches
    carry a payload within 0..100 for a percent send, and within
    0..[max_step] of the owning bridge for a step send. *)
Theorem sent_payload_within_range
    (now now_send : PrimFloat.float) (event : Event) (self self' : KnxStepBridgeManager)
    (r : result unit) :
  Forall valid_bridge (bridges self) ->
  _handle_knx_event now now_send event self = (r, self') ->
  exists sent,
    hass_calls self' = hass_calls self ++ sent
    /\ forall c, c ∈ sent ->
         exists i bridge,
           _find_bridge_by_address self (event_address event) = Some (i, bridge)
           /\ ((call_type c = "percent"
                /\ call_address c = percent_address bridge
                /\ 0 <= call_payload c <= 100)
               \/ (call_type c = "1byte_unsigned"
                   /\ call_address c = step_address bridge
                   /\ 0 <= call_payload c <= max_step bridge)).
Proof.
  intros Hvalid Hrun.
  destruct (handle_cases now now_send event self)
    as [H | [[e H] | (i & bridge & raw & Hfind & _ & [H | H])]];
    rewrite H in Hrun.
  - injection Hrun as <- <-. exists []. rewrite app_nil_r.
    split; [reflexivity |]. intros c Hc. inversion Hc.
  - injection Hrun as <- <-. exists []. rewrite app_nil_r.
    split; [reflexivity |]. intros c Hc. inversion Hc.
  - rewrite send_percent_eq in Hrun. injection Hrun as <- <-. cbn.
    eexists. split; [reflexivity |].
    intros c Hc. apply list_elem_of_singleton in Hc as ->.
    exists i, bridge. split; [exact Hfind |]. left.
    cbn [call_type call_address call_payload].
    split; [reflexivity | split; [reflexivity | lia]].
  - rewrite send_step_eq in Hrun. injection Hrun as <- <-. cbn.
    eexists. split; [reflexivity |].
    intros c Hc. apply list_elem_of_singleton in Hc as ->.
    exists i, bridge. split; [exact Hfind |]. right.
    cbn [call_type call_address call_payload].
    apply find_bridge_lookup in Hfind as [Hlook _].
    assert (Hb : valid_bridge bridge).
    { rewrite Forall_forall in Hvalid. apply Hvalid.
      apply list_elem_of_lookup. eauto. }
    unfold valid_bridge in Hb.
    split; [reflexivity | split; [reflexivity | lia]].
Qed.

Lemma sample_manager_valid : Forall valid_bridge (bridges sample_manager).
Proof. repeat constructor; unfold valid_bridge; cbn; lia. Qed.

Lemma sent_payload_within_range_witness :
  exists sent,
    hass_calls sample_manager_after_percent = hass_calls sample_manager ++ sent
    /\ forall c, c ∈ sent ->
         exists i bridge,
           _find_bridge_by_address sample_manager (event_address sample_percent_event)
           = Some (i, bridge)
           /\ ((call_type c = "percent"
                /\ call_address c = percent_address bridge
                /\ 0 <= call_payload c <= 100)
               \/ (call_type c = "1byte_unsigned"
                   /\ call_address c = step_address bridge
                   /\ 0 <= call_payload c <= max_step bridge)).
Proof.
  apply (sent_payload_within_range (Binary64.of_int 20) (Binary64.of_int 21)
           sample_percent_event sample_manager sample_manager_after_percent (Ok tt)).
  - exact sample_manager_valid.
  - reflexivity.
Defined.

Lemma insert_same_config (bs : list Bridge) (i j : nat) (b0 b1 b b' : Bridge) :
  bs !! i = Some b0 -> same_config b0 b1 ->
  bs !! j = Some b -> <[i := b1]> bs !! j = Some b' -> same_config b b'.
Proof.
  intros Hi Hcfg Hj Hj'. destruct (decide (i = j)) as [-> | Hne].
  - rewrite list_lookup_insert_eq in Hj' by (eapply lookup_lt_Some; eauto).
    congruence.
  - rewrite list_lookup_insert_ne in Hj' by exact Hne.
    assert (b' = b) as -> by congruence. unfold same_config. auto.
Qed.

(** C10. Handling one event leaves the name, both addresses and [max_step]
    of every bridge as they were, and the debounce window too. At most one
    call is dispatched. Without a call no bridge changes. With a call, one
    bridge gets one timestamp set to the time of the send -
    [last_sent_percent_ts] for a percent send, [last_sent_step_ts] for a step
    send - while its other timestamp and all other bridges stay as they
    were. *)
Theorem handler_frame
    (now now_send : PrimFloat.float) (event : Event) (self self' : KnxStepBridgeManager)
    (r : result unit) :
  _handle_knx_event now now_send event self = (r, self') ->
  _debounce self' = _debounce self
  /\ length (bridges self') = length (bridges self)
  /\ (forall j b b',
        bridges self !! j = Some b -> bridges self' !! j = Some b' ->
        name b' = name b
        /\ step_address b' = step_address b
        /\ percent_address b' = percent_address b
        /\ max_step b' = max_step b)
  /\ exists sent,
       hass_calls self' = hass_calls self ++ sent
       /\ (length sent <= 1)%nat
       /\ match sent with
          | [] => bridges self' = bridges self
          | c :: _ =>
              exists i b b',
                bridges self !! i = Some b
                /\ bridges self' !! i = Some b'
                /\ (forall j, j <> i -> bridges self' !! j = bridges self !! j)
                /\ ((call_type c = "percent"
                     /\ last_sent_percent_ts b' = now_send
                     /\ last_sent_step_ts b' = last_sent_step_ts b)
                    \/ (call_type c = "1byte_unsigned"
                        /\ last_sent_step_ts b' = now_send
                        /\ last_sent_percent_ts b' = last_sent_percent_ts b))
          end.
Proof.
  intros Hrun.
  destruct (handle_cases now now_send event self)
    as [H | [[e H] | (i & bridge & raw & Hfind & _ & [H | H])]];
    rewrite H in Hrun.
  - injection Hrun as <- <-. split; [reflexivity |]. split; [reflexivity |]. split.
    + intros j b b' Hb Hb'. assert (b' = b) as -> by congruence. auto.
    + exists []. rewrite app_nil_r. cbn. auto.
  - injection Hrun as <- <-. split; [reflexivity |]. split; [reflexivity |]. split.
    + intros j b b' Hb Hb'. assert (b' = b) as -> by congruence. auto.
    + exists []. rewrite app_nil_r. cbn. auto.
  - apply find_bridge_lookup in Hfind as [Hlook _].
    pose proof (lookup_lt_Some _ _ _ Hlook) as Hlt.
    rewrite send_percent_eq in Hrun. injection Hrun as <- <-. cbn.
    split; [reflexivity |]. split; [apply length_insert |]. split.
    + intros j b b' Hb Hb'.
      refine (insert_same_config _ i j bridge _ b b' Hlook _ Hb Hb').
      unfold same_config. cbn. auto.
    + eexists. split; [reflexivity |]. split; [cbn; lia |].
      exists i, bridge, (with_percent_ts now_send bridge).
      split; [exact Hlook |]. split; [apply list_lookup_insert_eq; exact Hlt |]. split.
      * intros j Hne. apply list_lookup_insert_ne. auto.
      * left. cbn. auto.
  - apply find_bridge_lookup in Hfind as [Hlook _].
    pose proof (lookup_lt_Some _ _ _ Hlook) as Hlt.
    rewrite send_step_eq in Hrun. injection Hrun as <- <-. cbn.
    split; [reflexivity |]. split; [apply length_insert |]. split.
    + intros j b b' Hb Hb'.
      refine (insert_same_config _ i j bridge _ b b' Hlook _ Hb Hb').
      unfold same_config. cbn. auto.
    + eexists. split; [reflexivity |]. split; [cbn; lia |].
      exists i, bridge, (with_step_ts now_send bridge).
      split; [exact Hlook |]. split; [apply list_lookup_insert_eq; exact Hlt |]. split.
      * intros j Hne. apply list_lookup_insert_ne. auto.
      * right. cbn. auto.
Qed.

(** The sample percent event, handled at 20 and sent at 21: the step send
    sets [last_sent_step_ts] to 21 and keeps [last_sent_percent_ts] at 0. *)
Lemma handler_frame_witness :
  _handle_knx_event (Binary64.of_int 20) (Binary64.of_int 21)
    sample_percent_event sample_manager
  = (Ok tt, sample_manager_after_percent)
  /\ exists sent,
       hass_calls sample_manager_after_percent = hass_calls sample_manager ++ sent
       /\ (length sent <= 1)%nat
       /\ match sent with
          | [] => bridges sample_manager_after_percent = bridges sample_manager
          | c :: _ =>
              exists i b b',
                bridges sample_manager !! i = Some b
                /\ bridges sample_manager_after_percent !! i = Some b'
                /\ (forall j, j <> i ->
                      bridges sample_manager_after_percent !! j
                      = bridges sample_manager !! j)
                /\ ((call_type c = "percent"
                     /\ last_sent_percent_ts b' = Binary64.of_int 21
                     /\ last_sent_step_ts b' = last_sent_step_ts b)
                    \/ (call_type c = "1byte_unsigned"
                        /\ last_sent_step_ts b' = Binary64.of_int 21
                        /\ last_sent_percent_ts b' = last_sent_percent_ts b))
          end.
Proof.
  split; [reflexivity |].
  apply (handler_frame (Binary64.of_int 20) (Binary64.of_int 21)
           sample_percent_event sample_manager sample_manager_after_percent (Ok tt)).
  reflexivity.
Defined.

(** ** The end-to-end scenario *)

(** A step event on "A" with payload 2 sends 50 percent on "B"; a percent
    event on "B" with payload 255 then sends step 4 on "A". *)
Example scenario_step_then_percent :
  let after_step :=
    snd (_handle_knx_event (Binary64.of_int 5) (Binary64.of_int 6)
           (event_of [("address", VStr "A"); ("data", VInt 2)]) scenario_manager) in
  let after_percent :=
    snd (_handle_knx_event (Binary64.of_int 7) (Binary64.of_int 8)
           (event_of [("address", VStr "B"); ("data", VInt 255)]) after_step) in
  hass_calls after_percent =
  [{| call_address := "B"; call_payload := 50; call_type := "percent" |};
   {| call_address := "A"; call_payload := 4; call_type := "1byte_unsigned" |}].
Proof. reflexivity. Qed.

(** * Further properties *)

(** ** Unit conversion *)

Lemma round_div_nearest (n d : Z) :
  0 < d -> - d <= 2 * (Py.round_div n d * d - n) <= d.
Proof.
  intros Hd. unfold Py.round_div.
  pose proof (Z.div_mod n d ltac:(lia)) as Hdm.
  pose proof (Z.mod_pos_bound n d Hd) as Hr.
  destruct (Z.compare_spec (2 * (n mod d)) d);
    [destruct (Z.even (n / d)) |..]; nia.
Qed.

Lemma round_div_monotone (n1 n2 d : Z) :
  0 < d -> n1 <= n2 -> Py.round_div n1 d <= Py.round_div n2 d.
Proof.
  intros Hd Hle. unfold Py.round_div.
  pose proof (Z.div_mod n1 d ltac:(lia)) as Hdm1.
  pose proof (Z.mod_pos_bound n1 d Hd) as Hr1.
  pose proof (Z.div_mod n2 d ltac:(lia)) as Hdm2.
  pose proof (Z.mod_pos_bound n2 d Hd) as Hr2.
  pose proof (Z.div_le_mono n1 n2 d Hd Hle) as Hq.
  destruct (Z.eq_dec (n1 / d) (n2 / d)) as [Heq | Hne].
  - rewrite Heq in *.
    assert (n1 mod d <= n2 mod d) by nia.
    destruct (Z.compare_spec (2 * (n1 mod d)) d);
      destruct (Z.compare_spec (2 * (n2 mod d)) d);
      destruct (Z.even (n2 / d)); lia.
  - assert (n1 / d + 1 <= n2 / d) by lia.
    destruct (Z.compare_spec (2 * (n1 mod d)) d);
      destruct (Z.compare_spec (2 * (n2 mod d)) d);
      destruct (Z.even (n1 / d)); destruct (Z.even (n2 / d)); lia.
Qed.

Lemma byte_to_percent_monotone (raw1 raw2 : Z) :
  raw1 <= raw2 -> byte_to_percent raw1 <= byte_to_percent raw2.
Proof.
  intros Hle. unfold byte_to_percent.
  pose proof (round_div_monotone (raw1 * 100) (raw2 * 100) 255 ltac:(lia) ltac:(lia)).
  lia.
Qed.

Lemma percent_to_step_of_monotone (p1 p2 max_step : Z) :
  0 <= max_step -> p1 <= p2 ->
  percent_to_step_of p1 max_step <= percent_to_step_of p2 max_step.
Proof.
  intros Hm Hle. unfold percent_to_step_of.
  destruct (Z.leb_spec p1 0) as [H1 | H1]; destruct (Z.leb_spec p2 0) as [H2 | H2];
    try lia.
  - pose proof (ceil_div_spec (p2 * max_step) 100 ltac:(lia)) as Hc.
    unfold is_ceil_of in Hc.
    destruct (Z.gtb_spec (Py.ceil_div (p2 * max_step) 100) max_step); nia.
  - pose proof (ceil_div_spec (p1 * max_step) 100 ltac:(lia)) as Hc1.
    pose proof (ceil_div_spec (p2 * max_step) 100 ltac:(lia)) as Hc2.
    unfold is_ceil_of in *.
    destruct (Z.gtb_spec (Py.ceil_div (p1 * max_step) 100) max_step);
      destruct (Z.gtb_spec (Py.ceil_div (p2 * max_step) 100) max_step); nia.
Qed.

(** X1. A larger raw byte never gives a smaller percent or a smaller step:
    lines 123-132 are monotonic non-decreasing in [raw], for [max_step] in
    1..255 and integers [raw] that fit a float (for the others line 123
    raises). *)
Theorem percent_to_step_monotone (raw1 raw2 max_step : Z) :
  1 <= max_step <= 255 ->
  fits_float raw1 = true ->
  fits_float raw2 = true ->
  raw1 <= raw2 ->
  fst (percent_to_step raw1 max_step) <= fst (percent_to_step raw2 max_step)
  /\ snd (percent_to_step raw1 max_step) <= snd (percent_to_step raw2 max_step).
Proof.
  intros Hm _ _ Hle. unfold percent_to_step. cbn [fst snd].
  pose proof (byte_to_percent_monotone raw1 raw2 Hle) as Hp.
  split; [exact Hp |].
  apply percent_to_step_of_monotone; [lia | assumption].
Qed.

Lemma percent_to_step_monotone_witness :
  fst (percent_to_step 84 3) <= fst (percent_to_step 200 3)
  /\ snd (percent_to_step 84 3) <= snd (percent_to_step 200 3).
Proof. apply (percent_to_step_monotone 84 200 3); (lia || reflexivity). Defined.

(** X2. For an integer [raw] that fits a float (for the others line 123
    raises), the percent is the integer nearest to [raw * 100 / 255] while
    that lies in 0..100, and saturates outside: it is 0 exactly for
    [raw <= 1] and 100 exactly for [raw >= 254]. So the raw byte 1, though
    not zero, gives step 0. *)
Theorem byte_to_percent_saturation (raw : Z) :
  fits_float raw = true ->
  (byte_to_percent raw = 0 <-> raw <= 1)
  /\ (byte_to_percent raw = 100 <-> 254 <= raw)
  /\ (0 <= raw <= 255 ->
      - 255 <= 2 * (byte_to_percent raw * 255 - raw * 100) <= 255)
  /\ (forall max_step, raw <= 1 -> snd (percent_to_step raw max_step) = 0).
Proof.
  intros _.
  assert (H1 : byte_to_percent 1 = 0) by reflexivity.
  assert (H2 : byte_to_percent 2 = 1) by reflexivity.
  assert (H253 : byte_to_percent 253 = 99) by reflexivity.
  assert (H254 : byte_to_percent 254 = 100) by reflexivity.
  pose proof (byte_to_percent_range raw) as Hrange.
  assert (Hlow : byte_to_percent raw = 0 <-> raw <= 1).
  { split; intros H.
    - destruct (Z.le_gt_cases raw 1) as [| Hgt]; [assumption |].
      pose proof (byte_to_percent_monotone 2 raw ltac:(lia)). lia.
    - pose proof (byte_to_percent_monotone raw 1 H). lia. }
  split; [exact Hlow |]. split; [| split].
  - split; intros H.
    + destruct (Z.le_gt_cases 254 raw) as [| Hlt]; [assumption |].
      pose proof (byte_to_percent_monotone raw 253 ltac:(lia)). lia.
    + pose proof (byte_to_percent_monotone 254 raw H). lia.
  - intros Hraw. unfold byte_to_percent.
    pose proof (round_div_nearest (raw * 100) 255 ltac:(lia)) as Hn.
    assert (0 <= Py.round_div (raw * 100) 255 <= 100); [| lia].
    pose proof (round_div_monotone 0 (raw * 100) 255 ltac:(lia) ltac:(lia)) as Ha.
    pose proof (round_div_monotone (raw * 100) 25500 255 ltac:(lia) ltac:(lia)) as Hb.
    change (Py.round_div 0 255) with 0 in Ha.
    change (Py.round_div 25500 255) with 100 in Hb. lia.
  - intros max_step Hle. unfold percent_to_step. cbn [snd].
    apply Hlow in Hle. rewrite Hle. reflexivity.
Qed.

Lemma byte_to_percent_saturation_witness :
  (byte_to_percent 300 = 0 <-> 300 <= 1)
  /\ (byte_to_percent 300 = 100 <-> 254 <= 300)
  /\ (0 <= 300 <= 255 ->
      - 255 <= 2 * (byte_to_percent 300 * 255 - 300 * 100) <= 255)
  /\ (forall max_step, 300 <= 1 -> snd (percent_to_step 300 max_step) = 0).
Proof. apply (byte_to_percent_saturation 300). reflexivity. Defined.

(** X3. Step to percent and back is lossless for [max_step <= 100]: for a
    step in 0..[max_step], lines 127-132 applied to the percent of lines
    113-114 give the step back. For [max_step] up to 255 the result is never
    above the step. *)
Theorem step_percent_step_round_trip (step max_step : Z) :
  1 <= max_step <= 255 ->
  0 <= step <= max_step ->
  percent_to_step_of (step_to_percent step max_step) max_step <= step
  /\ (max_step <= 100 ->
      percent_to_step_of (step_to_percent step max_step) max_step = step).
Proof.
  intros Hm Hs.
  pose proof (step_to_percent_range step max_step ltac:(lia)) as Hp.
  assert (Hfloor : is_floor_of (step_to_percent step max_step) (step * 100) max_step).
  { unfold step_to_percent.
    replace (Z.max 0 (Z.min max_step step)) with step by lia.
    apply floor_div_spec. lia. }
  unfold is_floor_of in Hfloor.
  destruct (Z.eq_dec (step_to_percent step max_step) 0) as [H0 | Hnz].
  - rewrite H0. change (percent_to_step_of 0 max_step) with 0.
    split; [lia |]. intros Hsmall. nia.
  - pose proof (percent_to_step_of_ceil (step_to_percent step max_step) max_step
                  ltac:(lia) ltac:(lia)) as Hc.
    unfold is_ceil_of in Hc.
    split; [nia |]. intros Hsmall. nia.
Qed.

Lemma step_percent_step_round_trip_witness :
  percent_to_step_of (step_to_percent 2 3) 3 <= 2
  /\ (3 <= 100 -> percent_to_step_of (step_to_percent 2 3) 3 = 2).
Proof. apply (step_percent_step_round_trip 2 3); lia. Defined.

(** With 255 steps the round trip loses step 1: its percent is 0. *)
Example round_trip_loses_step_1_of_255 :
  percent_to_step_of (step_to_percent 1 255) 255 = 0.
Proof. reflexivity. Qed.

(** X4. For a raw byte 0..255 and [max_step] in 1..255, the float
    computation of lines 123-132 on binary64 numbers returns the percent and
    the step of the integer model. *)
Theorem percent_to_step_agrees_with_binary64 (raw max_step : Z) :
  0 <= raw <= 255 ->
  1 <= max_step <= 255 ->
  percent_to_step_binary64 raw max_step = Some (percent_to_step raw max_step).
Proof.
  intros Hraw Hm. unfold percent_to_step_binary64, percent_to_step.
  rewrite (byte_to_percent_binary64 raw Hraw).
  rewrite (percent_to_step_of_binary64 _ _ (byte_to_percent_range raw) Hm).
  reflexivity.
Qed.

Lemma percent_to_step_agrees_with_binary64_witness :
  percent_to_step_binary64 171 3 = Some (percent_to_step 171 3).
Proof. apply (percent_to_step_agrees_with_binary64 171 3); lia. Defined.

(** ** Payload decoder *)

(** X5. The decoder lets an exception through in one case only: the payload
    is a list or tuple whose first element is an infinite float, and the
    exception is [OverflowError]. Every other payload gives an integer or
    [None]. *)
Theorem decoder_raises_only_on_infinite_float (payload : pyval) (e : exn) :
  _payload_to_int payload = Err e
  <-> e = OverflowError
      /\ exists rest,
           payload = VList (VFloat FInf :: rest) \/ payload = VTuple (VFloat FInf :: rest).
Proof.
  split.
  - destruct payload as [| b | n | f | s | bs | l | l]; cbn; try discriminate.
    + unfold int_base16. destruct (String.prefix "0x" s); cbn;
        destruct (parse_int _ _ s); discriminate.
    + destruct bs; discriminate.
    + destruct l as [| x l]; [discriminate |].
      destruct x as [| b | n | [q | |] | s | bs | l' | l']; cbn; try discriminate.
      * intros [= <-]. eauto.
      * destruct (parse_int _ _ s); discriminate.
      * destruct (parse_int _ _ _); discriminate.
    + destruct l as [| x l]; [discriminate |].
      destruct x as [| b | n | [q | |] | s | bs | l' | l']; cbn; try discriminate.
      * intros [= <-]. eauto.
      * destruct (parse_int _ _ s); discriminate.
      * destruct (parse_int _ _ _); discriminate.
  - intros (-> & rest & [-> | ->]); reflexivity.
Qed.

Lemma digit_in_value (base : Z) (c : ascii) (d : Z) :
  digit_in base c = Some d -> digit_value c = Some d /\ d < base.
Proof.
  unfold digit_in. destruct (digit_value c) as [d' |]; [| discriminate].
  destruct (Z.ltb_spec d' base); [| discriminate].
  intros [= <-]. auto.
Qed.

Lemma digit_not_underscore (base : Z) (c : ascii) (d : Z) :
  digit_in base c = Some d -> Ascii.eqb c "_" = false.
Proof.
  destruct (Ascii.eqb_spec c "_") as [-> |]; [| reflexivity].
  unfold digit_in. cbn. discriminate.
Qed.

(** A decimal digit is one of the characters 0-9. *)
Lemma decimal_digit_code (c : ascii) (d : Z) :
  digit_in 10 c = Some d -> 48 <= code c <= 57.
Proof.
  intros H. apply digit_in_value in H as [Hv Hlt]. revert Hv. unfold digit_value.
  repeat match goal with
         | |- context [?x <=? ?y] => destruct (Z.leb_spec x y)
         end; cbn; intros [= <-]; lia.
Qed.

Lemma scan_all_digits (base : Z) (s : string) :
  all_digits base s = true ->
  forall acc, scan_digits base false acc s = Some (digits_value base acc s, EmptyString).
Proof.
  induction s as [| c s IH]; cbn; intros Hall acc; [reflexivity |].
  destruct (digit_in base c) as [d |] eqn:Hd; [| discriminate].
  rewrite (digit_not_underscore _ _ _ Hd).
  apply digit_in_value in Hd as [-> _]. cbn. apply IH. exact Hall.
Qed.

Lemma parse_all_digits (base : Z) (s : string) :
  s <> EmptyString -> all_digits base s = true ->
  parse_digits base s = Some (digits_value base 0 s, EmptyString).
Proof.
  destruct s as [| c s]; [congruence |]. intros _. cbn.
  destruct (digit_in base c) as [d |] eqn:Hd; [| discriminate].
  intros Hall. rewrite (scan_all_digits _ _ Hall).
  apply digit_in_value in Hd as [-> _]. reflexivity.
Qed.

Lemma digits_value_nonneg (base : Z) (s : string) :
  0 <= base -> forall acc, 0 <= acc -> 0 <= digits_value base acc s.
Proof.
  intros Hb. induction s as [| c s IH]; cbn; intros acc Hacc; [exact Hacc |].
  apply IH. destruct (digit_value c) as [d |] eqn:Hd; cbn.
  - pose proof (digit_value_nonneg _ _ Hd). nia.
  - nia.
Qed.

Lemma parse_int_of_parts (sp : ascii -> bool) (base : Z) (s s1 : string)
    (negative : bool) (v : Z) :
  parse_sign (skip_spaces sp s) = (negative, s1) ->
  parse_digits base (skip_base_prefix base s1) = Some (v, EmptyString) ->
  parse_int sp base s =
  if digits_limited base
     && (max_str_digits <? count_digits base (skip_base_prefix base s1))
  then None
  else Some (if negative then - v else v).
Proof.
  intros Hsign Hdigits. unfold parse_int. rewrite Hsign, Hdigits.
  destruct (_ && _); reflexivity.
Qed.

Lemma count_all_digits (base : Z) (s : string) :
  all_digits base s = true -> count_digits base s = Z.of_nat (String.length s).
Proof.
  induction s as [| c s IH]; cbn [all_digits count_digits String.length];
    [reflexivity |].
  destruct (digit_in base c) as [d |] eqn:Hd; [| discriminate].
  rewrite (digit_not_underscore _ _ _ Hd). intros Hall. rewrite (IH Hall). lia.
Qed.

(** X6. A string made of the prefix [0x] and one or more hexadecimal digits
    decodes to the number the digits denote, which is not negative. The
    upper-case prefix [0X] is not recognised: such a string is read in base
    10 and gives [None]. *)
Theorem hex_literal_decodes (digits : string) :
  digits <> EmptyString ->
  all_digits 16 digits = true ->
  _payload_to_int (VStr (String "0" (String "x" digits)))
  = Ok (Some (digits_value 16 0 digits))
  /\ 0 <= digits_value 16 0 digits
  /\ _payload_to_int (VStr (String "0" (String "X" digits))) = Ok None.
Proof.
  intros Hne Hall.
  split; [| split; [apply digits_value_nonneg; lia | reflexivity]].
  assert (Hprefix : String.prefix "0x" (String "0" (String "x" digits)) = true).
  { destruct digits; reflexivity. }
  assert (Hskip : skip_base_prefix 16 (String "0" (String "x" digits)) = digits).
  { destruct digits as [| c ds]; [reflexivity |]. cbn in Hall |- *.
    destruct (digit_in 16 c) as [d |] eqn:Hd; [| discriminate].
    rewrite (digit_not_underscore _ _ _ Hd). reflexivity. }
  cbn [_payload_to_int]. rewrite Hprefix. unfold int_base16.
  rewrite (parse_int_of_parts is_space_str 16 _ (String "0" (String "x" digits))
             false (digits_value 16 0 digits)).
  - reflexivity.
  - reflexivity.
  - rewrite Hskip. apply parse_all_digits; assumption.
Qed.

Lemma hex_literal_decodes_witness :
  _payload_to_int (VStr "0xfF") = Ok (Some (digits_value 16 0 "fF"))
  /\ 0 <= digits_value 16 0 "fF"
  /\ _payload_to_int (VStr "0XfF") = Ok None.
Proof. apply (hex_literal_decodes "fF"); [discriminate | reflexivity]. Defined.

Lemma decimal_not_space (c : ascii) (d : Z) :
  digit_in 10 c = Some d ->
  is_space_str c = false /\ Ascii.eqb c "+" = false /\ Ascii.eqb c "-" = false.
Proof.
  intros H. apply decimal_digit_code in H.
  repeat split.
  - unfold is_space_str.
    repeat match goal with
           | |- context [?x <=? ?y] => destruct (Z.leb_spec x y)
           | |- context [?x =? ?y] => destruct (Z.eqb_spec x y)
           end; cbn; try reflexivity; lia.
  - destruct (Ascii.eqb_spec c "+") as [-> |];
      [change (code "+") with 43 in H; lia | reflexivity].
  - destruct (Ascii.eqb_spec c "-") as [-> |];
      [change (code "-") with 45 in H; lia | reflexivity].
Qed.

Lemma decimal_not_0x (digits : string) :
  all_digits 10 digits = true -> String.prefix "0x" digits = false.
Proof.
  intros Hall. destruct (String.prefix "0x" digits) eqn:Hp; [| reflexivity].
  apply String.prefix_correct in Hp.
  destruct digits as [| c [| c' ds]]; [discriminate Hp | discriminate Hp |].
  cbn in Hp. injection Hp as -> -> _. cbn in Hall. discriminate Hall.
Qed.

(** X7. A string of one or more decimal digits, at most 4300 of them,
    decodes to the number the digits denote, and with a leading minus sign
    to its negation: negative values do come out of the decoder. With more
    than 4300 digits [int] refuses the literal and the decoder gives
    [None]. *)
Theorem decimal_literal_decodes (digits : string) :
  digits <> EmptyString ->
  all_digits 10 digits = true ->
  ((String.length digits <= 4300)%nat ->
   _payload_to_int (VStr digits) = Ok (Some (digits_value 10 0 digits))
   /\ _payload_to_int (VStr (String "-" digits))
      = Ok (Some (- digits_value 10 0 digits)))
  /\ ((4300 < String.length digits)%nat ->
      _payload_to_int (VStr digits) = Ok None
      /\ _payload_to_int (VStr (String "-" digits)) = Ok None).
Proof.
  intros Hne Hall.
  pose proof (parse_all_digits _ _ Hne Hall) as Hparse.
  pose proof (count_all_digits _ _ Hall) as Hcount.
  destruct digits as [| c ds] eqn:Hds; [congruence |].
  assert (Hc : exists d, digit_in 10 c = Some d).
  { cbn in Hall. destruct (digit_in 10 c); [eauto | discriminate]. }
  destruct Hc as [d Hd].
  destruct (decimal_not_space _ _ Hd) as (Hsp & Hplus & Hminus).
  assert (Hplain : parse_int is_space_str 10 (String c ds) =
                   if max_str_digits <? Z.of_nat (String.length (String c ds))
                   then None else Some (digits_value 10 0 (String c ds))).
  { rewrite (parse_int_of_parts is_space_str 10 _ (String c ds)
               false (digits_value 10 0 (String c ds))).
    - change (skip_base_prefix 10 (String c ds)) with (String c ds).
      rewrite Hcount. reflexivity.
    - cbn [skip_spaces]. rewrite Hsp. cbn [parse_sign]. rewrite Hplus, Hminus.
      reflexivity.
    - exact Hparse. }
  assert (Hsigned : parse_int is_space_str 10 (String "-" (String c ds)) =
                    if max_str_digits <? Z.of_nat (String.length (String c ds))
                    then None else Some (- digits_value 10 0 (String c ds))).
  { rewrite (parse_int_of_parts is_space_str 10 _ (String c ds)
               true (digits_value 10 0 (String c ds))).
    - change (skip_base_prefix 10 (String c ds)) with (String c ds).
      rewrite Hcount. reflexivity.
    - reflexivity.
    - exact Hparse. }
  assert (Hp : String.prefix "0x" (String "-" (String c ds)) = false) by reflexivity.
  cbn [_payload_to_int]. rewrite (decimal_not_0x _ Hall), Hp. cbn [int_].
  rewrite Hplain, Hsigned. unfold max_str_digits.
  split; intros Hlen.
  - destruct (Z.ltb_spec 4300 (Z.of_nat (String.length (String c ds)))); [lia |].
    split; reflexivity.
  - destruct (Z.ltb_spec 4300 (Z.of_nat (String.length (String c ds)))); [| lia].
    split; reflexivity.
Qed.

Lemma decimal_literal_decodes_witness :
  ((String.length "042" <= 4300)%nat ->
   _payload_to_int (VStr "042") = Ok (Some (digits_value 10 0 "042"))
   /\ _payload_to_int (VStr "-042") = Ok (Some (- digits_value 10 0 "042")))
  /\ ((4300 < String.length "042")%nat ->
      _payload_to_int (VStr "042") = Ok None
      /\ _payload_to_int (VStr "-042") = Ok None).
Proof. apply (decimal_literal_decodes "042"); [discriminate | reflexivity]. Defined.

(** ** Bridge registry and set-up *)

Lemma find_from_first (bs : list Bridge) (address : pyval) :
  forall k : nat,
    match find_from k bs address with
    | Some (i, b) =>
        (k <= i)%nat
        /\ bs !! (i - k)%nat = Some b
        /\ owns b address = true
        /\ forall j b', (j < i - k)%nat -> bs !! j = Some b' -> owns b' address = false
    | None => forall b, b ∈ bs -> owns b address = false
    end.
Proof.
  induction bs as [| b0 bs IH]; intros k; cbn.
  - intros b Hb. inversion Hb.
  - destruct (owns b0 address) eqn:Hown.
    + rewrite Nat.sub_diag. repeat split; auto. intros j b' Hj. lia.
    + specialize (IH (S k)).
      destruct (find_from (S k) bs address) as [[i b] |].
      * destruct IH as (Hle & Hlook & Hb & Hbefore).
        split; [lia |]. replace (i - k)%nat with (S (i - S k)) by lia.
        split; [exact Hlook |]. split; [exact Hb |].
        intros [| j] b' Hj Hlook'.
        -- cbn in Hlook'. congruence.
        -- cbn in Hlook'. apply (Hbefore j); [lia | exact Hlook'].
      * intros b Hb. apply elem_of_cons in Hb as [-> | Hb]; auto.
Qed.

(** X8. [_find_bridge_by_address] returns the first bridge, in registration
    order, that has the address as its step or percent address: no bridge
    before it owns the address. It returns [None] exactly when no bridge
    owns the address. *)
Theorem find_bridge_is_first_owner (self : KnxStepBridgeManager) (address : pyval) :
  match _find_bridge_by_address self address with
  | Some (i, b) =>
      bridges self !! i = Some b
      /\ owns b address = true
      /\ forall j b', (j < i)%nat -> bridges self !! j = Some b' -> owns b' address = false
  | None => forall b, b ∈ bridges self -> owns b address = false
  end.
Proof.
  unfold _find_bridge_by_address.
  pose proof (find_from_first (bridges self) address 0) as H.
  destruct (find_from 0 (bridges self) address) as [[i b] |]; [| exact H].
  rewrite Nat.sub_0_r in H. destruct H as (_ & Hlook & Hown & Hbefore). auto.
Qed.

Lemma find_from_app (bs : list Bridge) (b : Bridge) (address : pyval) :
  forall k : nat,
    find_from k (bs ++ [b]) address =
    match find_from k bs address with
    | Some r => Some r
    | None => if owns b address then Some ((k + length bs)%nat, b) else None
    end.
Proof.
  induction bs as [| b0 bs IH]; intros k; cbn.
  - rewrite Nat.add_0_r. reflexivity.
  - destruct (owns b0 address); [reflexivity |].
    rewrite IH. replace (S k + length bs)%nat with (k + S (length bs))%nat by lia.
    reflexivity.
Qed.

(** X9. Registering a bridge never changes which bridge an address resolves
    to when some registered bridge owns it already; an address that nobody
    owned resolves to the new bridge iff the new bridge owns it. A bridge
    registered with an address taken by an earlier one is never found for
    that address. *)
Theorem add_bridge_keeps_resolution
    (b : Bridge) (self : KnxStepBridgeManager) (address : pyval) :
  _find_bridge_by_address (add_bridge b self) address =
  match _find_bridge_by_address self address with
  | Some r => Some r
  | None => if owns b address then Some (length (bridges self), b) else None
  end.
Proof. unfold _find_bridge_by_address. cbn. apply find_from_app. Qed.

Lemma setup_fold (items : list BridgeItem) :
  forall mgr : KnxStepBridgeManager,
    let mgr' := fold_left (fun mgr item => add_bridge (bridge_of_item item) mgr) items mgr in
    bridges mgr' = bridges mgr ++ map bridge_of_item items
    /\ _debounce mgr' = _debounce mgr
    /\ hass_calls mgr' = hass_calls mgr.
Proof.
  induction items as [| item items IH]; intros mgr; cbn.
  - rewrite app_nil_r. auto.
  - destruct (IH (add_bridge (bridge_of_item item) mgr)) as (Hb & Hd & Hc).
    cbn in Hb, Hd, Hc. rewrite Hb, Hd, Hc, <- app_assoc. auto.
Qed.

Lemma leb_value_le (x y : PrimFloat.float) :
  Binary64.leb_value x y = true -> Binary64.le x y.
Proof.
  unfold Binary64.leb_value, Binary64.le.
  destruct (Binary64.to_Q x), (Binary64.to_Q y); try discriminate.
  apply Qle_bool_iff.
Qed.

(** For every [debounce_ms] of the schema the constructor succeeds, and the
    window it stores is the float [debounce_ms / 1000.0], within 0..5. *)
Lemma window_table : forallb window_checked (seqZ 0 5001) = true.
Proof. vm_compute. reflexivity. Qed.

Lemma new_manager_small (ms : Z) :
  0 <= ms <= 5000 ->
  new_manager ms = Ok (empty_manager ms)
  /\ Binary64.le PrimFloat.zero (_debounce (empty_manager ms))
  /\ Binary64.le (_debounce (empty_manager ms)) (Binary64.of_int 5).
Proof.
  intros Hms.
  pose proof (forallb_seqZ _ _ _ ms window_table ltac:(lia)) as Hcell.
  unfold window_checked, new_manager in *.
  destruct (Binary64.of_Z ms) as [f | e]; [| discriminate].
  cbn [_debounce] in Hcell.
  apply andb_true_iff in Hcell as [Hcell Hhigh].
  apply andb_true_iff in Hcell as [Heq Hlow].
  apply FloatAxioms.Leibniz.eqb_spec in Heq.
  unfold empty_manager, Binary64.ratio. cbn [_debounce]. rewrite <- Heq.
  auto using leb_value_le.
Qed.

(** X10. Set-up from a configuration that passed the schema succeeds and
    gives a manager whose bridges are the configured entries in their order,
    each with [max_step] in 1..255 and both timestamps 0.0, whose window is
    the float [debounce_ms / 1000.0] (500 ms when the key is missing), which
    lies within 0..5 seconds, and that has dispatched nothing. *)
Theorem async_setup_builds_valid_manager (conf : DomainConf) :
  valid_conf conf ->
  exists self,
    async_setup (Some conf) = Ok (Some self)
    /\ bridges self = map bridge_of_item (conf_bridges conf)
    /\ Forall valid_bridge (bridges self)
    /\ Forall (fun b => last_sent_step_ts b = PrimFloat.zero
                     /\ last_sent_percent_ts b = PrimFloat.zero)
              (bridges self)
    /\ _debounce self
       = PrimFloat.div (Binary64.of_int (default 500 (conf_debounce_ms conf)))
                       (Binary64.of_int 1000)
    /\ Binary64.le PrimFloat.zero (_debounce self)
    /\ Binary64.le (_debounce self) (Binary64.of_int 5)
    /\ hass_calls self = [].
Proof.
  intros [Hitems Hms].
  destruct (new_manager_small _ Hms) as (Hnew & Hlow & Hhigh).
  unfold async_setup. rewrite Hnew.
  destruct (setup_fold (conf_bridges conf)
              (empty_manager (default 500 (conf_debounce_ms conf)))) as (Hb & Hd & Hc).
  eexists. split; [reflexivity |].
  rewrite Hb, Hd, Hc. cbn [empty_manager bridges hass_calls app].
  split; [reflexivity |]. split; [| split; [| split; [reflexivity | auto]]].
  - apply Forall_map. eapply Forall_impl; [exact Hitems |]. intros item Hitem. exact Hitem.
  - apply Forall_map. apply Forall_forall. intros item _. cbn. auto.
Qed.

Lemma async_setup_builds_valid_manager_witness :
  async_setup (Some sample_conf_300) = Ok (Some sample_setup_300)
  /\ exists self,
    async_setup (Some sample_conf_300) = Ok (Some self)
    /\ bridges self = map bridge_of_item (conf_bridges sample_conf_300)
    /\ Forall valid_bridge (bridges self)
    /\ Forall (fun b => last_sent_step_ts b = PrimFloat.zero
                     /\ last_sent_percent_ts b = PrimFloat.zero)
              (bridges self)
    /\ _debounce self
       = PrimFloat.div (Binary64.of_int (default 500 (conf_debounce_ms sample_conf_300)))
                       (Binary64.of_int 1000)
    /\ Binary64.le PrimFloat.zero (_debounce self)
    /\ Binary64.le (_debounce self) (Binary64.of_int 5)
    /\ hass_calls self = [].
Proof.
  split; [reflexivity |].
  apply (async_setup_builds_valid_manager sample_conf_300).
  split; [repeat constructor; unfold valid_item; cbn; lia | cbn; lia].
Defined.

(** ** Event handler *)

(** The handler once the bridge is found and the payload decoded. *)
Lemma handle_resolved
    (now now_send : PrimFloat.float) (event : Event) (self : KnxStepBridgeManager)
    (i : nat) (bridge : Bridge) (raw : Z) :
  truthy (event_address event) = true ->
  _find_bridge_by_address self (event_address event) = Some (i, bridge) ->
  _payload_to_int (event_payload event) = Ok (Some raw) ->
  _handle_knx_event now now_send event self =
  if eq_str (event_address event) (step_address bridge) then
    if PrimFloat.ltb (PrimFloat.sub now (last_sent_step_ts bridge)) (_debounce self) then (Ok tt, self)
    else if max_step bridge =? 0 then (Err ZeroDivisionError, self)
    else _send_percent now_send i bridge (step_to_percent raw (max_step bridge)) self
  else
    if PrimFloat.ltb (PrimFloat.sub now (last_sent_percent_ts bridge)) (_debounce self) then (Ok tt, self)
    else if negb (fits_float raw) then (Err OverflowError, self)
    else _send_step now_send i bridge (snd (percent_to_step raw (max_step bridge))) self.
Proof.
  intros Haddr Hfind Hdec.
  pose proof (find_bridge_lookup _ _ _ _ Hfind) as [_ Hown].
  rewrite handle_unfold, Haddr, (decoded_not_None _ _ Hdec), Hfind, Hdec.
  cbn [negb orb]. unfold owns in Hown.
  destruct (eq_str (event_address event) (step_address bridge)); [reflexivity |].
  cbn in Hown. rewrite Hown. reflexivity.
Qed.

Lemma handle_drops_iff
    (now now_send : PrimFloat.float) (event : Event) (self : KnxStepBridgeManager)
    (i : nat) (bridge : Bridge) (raw : Z) :
  truthy (event_address event) = true ->
  _find_bridge_by_address self (event_address event) = Some (i, bridge) ->
  _payload_to_int (event_payload event) = Ok (Some raw) ->
  _handle_knx_event now now_send event self = (Ok tt, self)
  <-> PrimFloat.ltb (PrimFloat.sub now (checked_ts (event_address event) bridge))
                    (_debounce self) = true.
Proof.
  intros Haddr Hfind Hdec.
  rewrite (handle_resolved _ _ _ _ _ _ _ Haddr Hfind Hdec). unfold checked_ts.
  destruct (eq_str (event_address event) (step_address bridge));
    (destruct (PrimFloat.ltb _ _) eqn:Hlt; [tauto |];
     split; [intros H; exfalso | discriminate]).
  - destruct (max_step bridge =? 0); [discriminate H |].
    exact (send_percent_not_drop _ _ _ _ _ H).
  - destruct (negb (fits_float raw)); [discriminate H |].
    exact (send_step_not_drop _ _ _ _ _ H).
Qed.

Lemma handle_processed
    (now now_send : PrimFloat.float) (event : Event) (self : KnxStepBridgeManager)
    (i : nat) (bridge : Bridge) (raw : Z) :
  truthy (event_address event) = true ->
  _find_bridge_by_address self (event_address event) = Some (i, bridge) ->
  _payload_to_int (event_payload event) = Ok (Some raw) ->
  valid_bridge bridge ->
  fits_float raw = true ->
  PrimFloat.ltb (PrimFloat.sub now (checked_ts (event_address event) bridge))
                (_debounce self) = false ->
  _handle_knx_event now now_send event self =
  (Ok tt,
   {| bridges := <[i := answered (event_address event) now_send bridge]> (bridges self);
      _debounce := _debounce self;
      hass_calls := hass_calls self ++ [answer (event_address event) bridge raw] |}).
Proof.
  intros Haddr Hfind Hdec Hvalid Hfits Hwin.
  rewrite (handle_resolved _ _ _ _ _ _ _ Haddr Hfind Hdec).
  unfold checked_ts, answered, answer, valid_bridge in *.
  destruct (eq_str (event_address event) (step_address bridge)); rewrite Hwin.
  - destruct (Z.eqb_spec (max_step bridge) 0); [lia |].
    rewrite send_percent_eq.
    pose proof (step_to_percent_range raw (max_step bridge) ltac:(lia)).
    do 5 f_equal. lia.
  - rewrite Hfits. cbn [negb]. rewrite send_step_eq.
    pose proof (percent_to_step_of_bounds (byte_to_percent raw) (max_step bridge)
                  ltac:(lia) ltac:(pose proof (byte_to_percent_range raw); lia)).
    unfold percent_to_step. cbn [snd]. do 5 f_equal. lia.
Qed.

(** X11. An event that is not suppressed - on an address of a bridge with
    [max_step] in 1..255, with a payload that decodes to an integer fitting a
    float - returns normally and dispatches exactly one call. For an event
    on the step address the call goes to the percent address with type
    ["percent"] and the percent of lines 113-114 as payload, and
    [last_sent_percent_ts] of the bridge becomes the time of the send; for
    an event on the percent address the call goes to the step address with
    type ["1byte_unsigned"] and the step of lines 123-132, and
    [last_sent_step_ts] becomes the time of the send. The clamps of lines
    155 and 171 change nothing; the other fields of the bridge, the other
    bridges and the window stay as they were. *)
Theorem processed_event_sends_conversion
    (now now_send : PrimFloat.float) (event : Event) (self : KnxStepBridgeManager)
    (i : nat) (bridge : Bridge) (raw : Z) :
  truthy (event_address event) = true ->
  _find_bridge_by_address self (event_address event) = Some (i, bridge) ->
  _payload_to_int (event_payload event) = Ok (Some raw) ->
  valid_bridge bridge ->
  fits_float raw = true ->
  PrimFloat.ltb (PrimFloat.sub now (checked_ts (event_address event) bridge))
                (_debounce self) = false ->
  exists self' c b',
    _handle_knx_event now now_send event self = (Ok tt, self')
    /\ hass_calls self' = hass_calls self ++ [c]
    /\ bridges self' !! i = Some b'
    /\ (forall j, j <> i -> bridges self' !! j = bridges self !! j)
    /\ _debounce self' = _debounce self
    /\ name b' = name bridge
    /\ step_address b' = step_address bridge
    /\ percent_address b' = percent_address bridge
    /\ max_step b' = max_step bridge
    /\ if eq_str (event_address event) (step_address bridge) then
         call_address c = percent_address bridge
         /\ call_payload c = step_to_percent raw (max_step bridge)
         /\ call_type c = "percent"
         /\ last_sent_percent_ts b' = now_send
         /\ last_sent_step_ts b' = last_sent_step_ts bridge
       else
         call_address c = step_address bridge
         /\ call_payload c = snd (percent_to_step raw (max_step bridge))
         /\ call_type c = "1byte_unsigned"
         /\ last_sent_step_ts b' = now_send
         /\ last_sent_percent_ts b' = last_sent_percent_ts bridge.
Proof.
  intros Haddr Hfind Hdec Hvalid Hfits Hwin.
  rewrite (handle_processed _ _ _ _ _ _ _ Haddr Hfind Hdec Hvalid Hfits Hwin).
  apply find_bridge_lookup in Hfind as [Hlook _].
  eexists _, _, _. split; [reflexivity |]. cbn [hass_calls bridges _debounce].
  split; [reflexivity |].
  split; [apply list_lookup_insert_eq; eapply lookup_lt_Some; exact Hlook |].
  split; [intros j Hne; apply list_lookup_insert_ne; auto |].
  split; [reflexivity |].
  unfold answered, answer.
  destruct (eq_str (event_address event) (step_address bridge)); cbn; auto 10.
Qed.

Lemma processed_event_sends_conversion_witness :
  _handle_knx_event (Binary64.of_int 20) (Binary64.of_int 21)
    sample_percent_event sample_manager
  = (Ok tt, sample_manager_after_percent)
  /\ exists self' c b',
    _handle_knx_event (Binary64.of_int 20) (Binary64.of_int 21)
      sample_percent_event sample_manager = (Ok tt, self')
    /\ hass_calls self' = hass_calls sample_manager ++ [c]
    /\ bridges self' !! 0%nat = Some b'
    /\ (forall j, j <> 0%nat -> bridges self' !! j = bridges sample_manager !! j)
    /\ _debounce self' = _debounce sample_manager
    /\ name b' = name sample_bridge
    /\ step_address b' = step_address sample_bridge
    /\ percent_address b' = percent_address sample_bridge
    /\ max_step b' = max_step sample_bridge
    /\ if eq_str (event_address sample_percent_event) (step_address sample_bridge) then
         call_address c = percent_address sample_bridge
         /\ call_payload c = step_to_percent 171 (max_step sample_bridge)
         /\ call_type c = "percent"
         /\ last_sent_percent_ts b' = Binary64.of_int 21
         /\ last_sent_step_ts b' = last_sent_step_ts sample_bridge
       else
         call_address c = step_address sample_bridge
         /\ call_payload c = snd (percent_to_step 171 (max_step sample_bridge))
         /\ call_type c = "1byte_unsigned"
         /\ last_sent_step_ts b' = Binary64.of_int 21
         /\ last_sent_percent_ts b' = last_sent_percent_ts sample_bridge.
Proof.
  split; [reflexivity |].
  apply (processed_event_sends_conversion (Binary64.of_int 20) (Binary64.of_int 21)
           sample_percent_event sample_manager 0 sample_bridge 171); try reflexivity.
  unfold valid_bridge. cbn. lia.
Defined.

(** X12. A bridge starts with both timestamps at 0.0, the origin of the
    clock. So on a manager fresh from set-up, an event that reaches the
    debounce check is dropped exactly when [now - 0.0 < window] in float
    arithmetic: nothing was sent yet, and still events are suppressed while
    the clock reads less than the window. *)
Theorem fresh_manager_suppresses_until_window
    (conf : DomainConf) (now now_send : PrimFloat.float) (event : Event)
    (self : KnxStepBridgeManager) (i : nat) (bridge : Bridge) (raw : Z) :
  async_setup (Some conf) = Ok (Some self) ->
  truthy (event_address event) = true ->
  _find_bridge_by_address self (event_address event) = Some (i, bridge) ->
  _payload_to_int (event_payload event) = Ok (Some raw) ->
  _handle_knx_event now now_send event self = (Ok tt, self)
  <-> PrimFloat.ltb (PrimFloat.sub now PrimFloat.zero) (_debounce self) = true.
Proof.
  intros Hsetup Haddr Hfind Hdec.
  rewrite (handle_drops_iff _ _ _ _ _ _ _ Haddr Hfind Hdec).
  unfold async_setup in Hsetup.
  destruct (new_manager (default 500 (conf_debounce_ms conf))) as [mgr | e] eqn:Hnew;
    [| discriminate].
  injection Hsetup as <-.
  destruct (setup_fold (conf_bridges conf) mgr) as (Hb & Hd & _).
  cbn zeta in Hb, Hd.
  apply find_bridge_lookup in Hfind as [Hlook _].
  rewrite Hb in Hlook.
  assert (Hzero : last_sent_step_ts bridge = PrimFloat.zero
                  /\ last_sent_percent_ts bridge = PrimFloat.zero).
  { unfold new_manager in Hnew. destruct (Binary64.of_Z _); [| discriminate].
    injection Hnew as <-. cbn in Hlook.
    apply list_lookup_fmap_Some_1 in Hlook as (item & -> & _). cbn. auto. }
  destruct Hzero as [Hs Hp]. unfold checked_ts.
  destruct (eq_str _ _); rewrite ?Hs, ?Hp; reflexivity.
Qed.

(** With a window of 300 ms, at clock reading 0.3 the float test
    [0.3 - 0.0 < 300 / 1000.0] is false and the event is processed; at 0.25
    it is true and the event is dropped. *)
Lemma fresh_manager_suppresses_until_window_witness :
  (_handle_knx_event (Binary64.ratio 3 10) (Binary64.of_int 1)
     sample_step_event sample_setup_300 = (Ok tt, sample_setup_300)
   <-> PrimFloat.ltb (PrimFloat.sub (Binary64.ratio 3 10) PrimFloat.zero)
                     (_debounce sample_setup_300) = true)
  /\ PrimFloat.ltb (PrimFloat.sub (Binary64.ratio 3 10) PrimFloat.zero)
                   (_debounce sample_setup_300) = false
  /\ _handle_knx_event (Binary64.ratio 25 100) (Binary64.of_int 1)
       sample_step_event sample_setup_300 = (Ok tt, sample_setup_300).
Proof.
  split; [| split; [reflexivity |]].
  - apply (fresh_manager_suppresses_until_window sample_conf_300
             (Binary64.ratio 3 10) (Binary64.of_int 1) sample_step_event sample_setup_300
             0 (new_bridge "blind" "1/2/3" "1/2/4" 3) 2);
      reflexivity.
  - apply (fresh_manager_suppresses_until_window sample_conf_300
             (Binary64.ratio 25 100) (Binary64.of_int 1) sample_step_event sample_setup_300
             0 (new_bridge "blind" "1/2/3" "1/2/4" 3) 2);
      reflexivity.
Defined.

Lemma find_from_update (bs : list Bridge) (address : pyval) (b' : Bridge) :
  forall (k i : nat) (b : Bridge),
    find_from k bs address = Some (i, b) ->
    step_address b' = step_address b ->
    percent_address b' = percent_address b ->
    find_from k (<[(i - k)%nat := b']> bs) address = Some (i, b').
Proof.
  induction bs as [| b0 bs IH]; intros k i b; cbn; [discriminate |].
  destruct (owns b0 address) eqn:Hown.
  - intros [= <- <-] Hs Hp. rewrite Nat.sub_diag. cbn.
    unfold owns in *. rewrite Hs, Hp, Hown. reflexivity.
  - intros Hfind Hs Hp.
    pose proof (find_from_spec _ _ _ _ _ Hfind) as (Hle & _ & _).
    replace (i - k)%nat with (S (i - S k)) by lia. cbn. rewrite Hown.
    apply (IH (S k) i b); assumption.
Qed.

Lemma find_after_answer
    (self : KnxStepBridgeManager) (address address' : pyval) (now_send : PrimFloat.float)
    (i : nat) (bridge : Bridge) (calls : list ServiceCall) :
  _find_bridge_by_address self address' = Some (i, bridge) ->
  _find_bridge_by_address
    {| bridges := <[i := answered address now_send bridge]> (bridges self);
       _debounce := _debounce self;
       hass_calls := calls |} address'
  = Some (i, answered address now_send bridge).
Proof.
  intros Hfind. unfold _find_bridge_by_address in *. cbn.
  rewrite <- (Nat.sub_0_r i) at 1.
  apply (find_from_update _ _ _ 0 i bridge Hfind);
    unfold answered; destruct (eq_str address (step_address bridge)); reflexivity.
Qed.

(** The address on which the answer to an event on [address] goes out. *)
Lemma answer_address (address : pyval) (bridge : Bridge) (raw : Z) :
  call_address (answer address bridge raw) =
  if eq_str address (step_address bridge) then percent_address bridge
  else step_address bridge.
Proof. unfold answer. destruct (eq_str _ _); reflexivity. Qed.

(** X13. Anti-echo across two events. After an event was processed and its
    answer sent at [now_send] on the other address of a bridge whose two
    addresses differ, an event arriving on that other address (owned by the
    same bridge) is dropped iff it arrives less than the window after
    [now_send], in float arithmetic: the comparison is against the time of
    the send, whatever the timestamps were before. *)
Theorem echo_of_own_send_is_suppressed
    (now now_send now2 now_send2 : PrimFloat.float) (event echo : Event)
    (self : KnxStepBridgeManager) (i : nat) (bridge : Bridge) (raw raw2 : Z) :
  truthy (event_address event) = true ->
  _find_bridge_by_address self (event_address event) = Some (i, bridge) ->
  _payload_to_int (event_payload event) = Ok (Some raw) ->
  valid_bridge bridge ->
  fits_float raw = true ->
  PrimFloat.ltb (PrimFloat.sub now (checked_ts (event_address event) bridge))
                (_debounce self) = false ->
  step_address bridge <> percent_address bridge ->
  event_address echo
  = VStr (if eq_str (event_address event) (step_address bridge)
          then percent_address bridge else step_address bridge) ->
  truthy (event_address echo) = true ->
  _find_bridge_by_address self (event_address echo) = Some (i, bridge) ->
  _payload_to_int (event_payload echo) = Ok (Some raw2) ->
  let self' := snd (_handle_knx_event now now_send event self) in
  _handle_knx_event now2 now_send2 echo self' = (Ok tt, self')
  <-> PrimFloat.ltb (PrimFloat.sub now2 now_send) (_debounce self) = true.
Proof.
  intros Haddr Hfind Hdec Hvalid Hfits Hwin Hdiff Hecho Htruthy Hfind2 Hdec2.
  rewrite (handle_processed _ _ _ _ _ _ _ Haddr Hfind Hdec Hvalid Hfits Hwin).
  cbn [snd].
  pose proof (find_after_answer self (event_address event) (event_address echo)
                now_send i bridge
                (hass_calls self ++ [answer (event_address event) bridge raw]) Hfind2)
    as Hfind'.
  rewrite (handle_drops_iff _ _ _ _ _ _ _ Htruthy Hfind' Hdec2). cbn [_debounce].
  assert (Hts : checked_ts (event_address echo)
                  (answered (event_address event) now_send bridge) = now_send).
  { rewrite Hecho. unfold checked_ts, answered.
    destruct (eq_str (event_address event) (step_address bridge)); cbn.
    - destruct (String.eqb_spec (percent_address bridge) (step_address bridge));
        [congruence | reflexivity].
    - rewrite String.eqb_refl. reflexivity. }
  rewrite Hts. reflexivity.
Qed.

(** The sample percent event is answered by a step send at 21; the echo on
    the step address at 21.3 comes 0.3 s later and is dropped. With a window
    of 300 ms, a send at 0.31 and an echo at 0.61, the float difference is
    not below the window and the echo is processed. *)
Lemma echo_of_own_send_is_suppressed_witness :
  (let self' := snd (_handle_knx_event (Binary64.of_int 20) (Binary64.of_int 21)
                       sample_percent_event sample_manager) in
   _handle_knx_event (Binary64.ratio 213 10) (Binary64.of_int 22)
     sample_step_event self' = (Ok tt, self')
   <-> PrimFloat.ltb (PrimFloat.sub (Binary64.ratio 213 10) (Binary64.of_int 21))
                     (_debounce sample_manager) = true)
  /\ PrimFloat.ltb (PrimFloat.sub (Binary64.ratio 213 10) (Binary64.of_int 21))
                   (_debounce sample_manager) = true
  /\ (let self' := snd (_handle_knx_event (Binary64.ratio 30 100) (Binary64.ratio 31 100)
                          sample_percent_event sample_setup_300) in
      _handle_knx_event (Binary64.ratio 61 100) (Binary64.of_int 1)
        sample_step_event self' = (Ok tt, self')
      <-> PrimFloat.ltb (PrimFloat.sub (Binary64.ratio 61 100) (Binary64.ratio 31 100))
                        (_debounce sample_setup_300) = true)
  /\ PrimFloat.ltb (PrimFloat.sub (Binary64.ratio 61 100) (Binary64.ratio 31 100))
                   (_debounce sample_setup_300) = false.
Proof.
  split; [| split; [reflexivity | split; [| reflexivity]]].
  - apply (echo_of_own_send_is_suppressed
             (Binary64.of_int 20) (Binary64.of_int 21)
             (Binary64.ratio 213 10) (Binary64.of_int 22)
             sample_percent_event sample_step_event sample_manager 0 sample_bridge 171 2);
      try reflexivity.
    + unfold valid_bridge. cbn. lia.
    + cbn. discriminate.
  - apply (echo_of_own_send_is_suppressed
             (Binary64.ratio 30 100) (Binary64.ratio 31 100)
             (Binary64.ratio 61 100) (Binary64.of_int 1)
             sample_percent_event sample_step_event sample_setup_300 0
             (new_bridge "blind" "1/2/3" "1/2/4" 3) 171 2);
      try reflexivity.
    + unfold valid_bridge. cbn. lia.
    + cbn. discriminate.
Defined.

(** X14. With bridges that passed the schema, the handler raises in two
    cases only, and leaves the manager as it was: the decoder itself raised
    (a list or tuple headed by an infinite float), or an event on the percent
    address that is not suppressed carries an integer too large for a float
    ([OverflowError] from [raw / 255.0]). An event on the step address with
    a decoded payload never raises. *)
Theorem handler_raises_iff
    (now now_send : PrimFloat.float) (event : Event) (self self' : KnxStepBridgeManager) (e : exn) :
  Forall valid_bridge (bridges self) ->
  _handle_knx_event now now_send event self = (Err e, self')
  <-> self' = self
      /\ truthy (event_address event) = true
      /\ exists i bridge,
           _find_bridge_by_address self (event_address event) = Some (i, bridge)
           /\ (_payload_to_int (event_payload event) = Err e
               \/ exists raw,
                    _payload_to_int (event_payload event) = Ok (Some raw)
                    /\ e = OverflowError
                    /\ eq_str (event_address event) (step_address bridge) = false
                    /\ PrimFloat.ltb (PrimFloat.sub now (last_sent_percent_ts bridge))
                                     (_debounce self) = false
                    /\ fits_float raw = false).
Proof.
  intros Hvalid. rewrite handle_unfold.
  destruct (truthy (event_address event)) eqn:Haddr; cbn [negb orb].
  2: { split; [discriminate | intros (_ & H & _); discriminate H]. }
  destruct (is_None (event_payload event)) eqn:Hnone.
  { split; [discriminate |]. intros (_ & _ & i & bridge & _ & [H | (raw & H & _)]);
      destruct (event_payload event); cbn in Hnone, H; discriminate. }
  destruct (_find_bridge_by_address self (event_address event)) as [[i bridge] |] eqn:Hfind.
  2: { split; [discriminate | intros (_ & _ & i & bridge & H & _); discriminate H]. }
  pose proof (find_bridge_lookup _ _ _ _ Hfind) as [Hlook Hown].
  assert (Hb : valid_bridge bridge).
  { rewrite Forall_forall in Hvalid. apply Hvalid. apply list_elem_of_lookup. eauto. }
  unfold valid_bridge in Hb.
  destruct (_payload_to_int (event_payload event)) as [[raw |] | e0] eqn:Hdec.
  - unfold owns in Hown.
    destruct (eq_str (event_address event) (step_address bridge)) eqn:Hstep.
    + split.
      * destruct (PrimFloat.ltb _ _); [discriminate |].
        destruct (Z.eqb_spec (max_step bridge) 0); [lia |].
        rewrite send_percent_eq. discriminate.
      * intros (_ & _ & i' & bridge' & [= <- <-] & [H | (raw' & _ & _ & H & _)]);
          [discriminate H | congruence].
    + cbn in Hown. rewrite Hown.
      destruct (PrimFloat.ltb _ _) eqn:Hlt.
      * split; [discriminate |].
        intros (_ & _ & i' & bridge' & [= <- <-] & [H | (raw' & _ & _ & _ & Hwin & _)]);
          [discriminate H | congruence].
      * destruct (fits_float raw) eqn:Hfits; cbn [negb].
        -- split; [rewrite send_step_eq; discriminate |].
           intros (_ & _ & i' & bridge' & _ & [H | (raw' & [= <-] & _ & _ & _ & H)]);
             [discriminate H | congruence].
        -- split.
           ++ intros [= <- <-]. split; [reflexivity |]. split; [reflexivity |].
              exists i, bridge. split; [reflexivity |]. right. exists raw. auto.
           ++ intros (-> & _ & i' & bridge' & _ & [H | (raw' & _ & -> & _)]);
                [discriminate H | reflexivity].
  - split; [discriminate |].
    intros (_ & _ & i' & bridge' & _ & [H | (raw' & H & _)]); discriminate H.
  - split.
    + intros [= <- <-]. split; [reflexivity |]. split; [reflexivity |].
      exists i, bridge. auto.
    + intros (-> & _ & i' & bridge' & _ & [[= <-] | (raw' & H & _)]);
        [reflexivity | discriminate H].
Qed.

Lemma handler_raises_iff_witness :
  _handle_knx_event (Binary64.of_int 20) (Binary64.of_int 21)
    (event_of [("address", VStr "1/2/4"); ("data", VInt (2 ^ 1024))]) sample_manager
  = (Err OverflowError, sample_manager).
Proof.
  apply (handler_raises_iff (Binary64.of_int 20) (Binary64.of_int 21)
           (event_of [("address", VStr "1/2/4"); ("data", VInt (2 ^ 1024))])
           sample_manager sample_manager OverflowError sample_manager_valid).
  split; [reflexivity |]. split; [reflexivity |].
  exists 0%nat, sample_bridge. split; [reflexivity |].
  right. exists (2 ^ 1024).
  repeat apply conj; reflexivity.
Defined.

(** ** Order and subtraction of floats *)

Lemma to_Q_sf_value (x : PrimFloat.float) :
  Binary64.to_Q x = Binary64.sf_value (FloatOps.Prim2SF x).
Proof. reflexivity. Qed.

Lemma finite_value_scale (n e k : Z) :
  0 <= k -> 0 <= e + k ->
  (Binary64.finite_value n e * inject_Z (2 ^ k) == inject_Z (n * 2 ^ (e + k)))%Q.
Proof.
  intros Hk Hek. unfold Binary64.finite_value.
  destruct (Z.leb_spec 0 e) as [He | He].
  - rewrite <- inject_Z_mult, Z.pow_add_r, Z.mul_assoc by lia. reflexivity.
  - assert (Hpos : 0 < 2 ^ (- e)) by (apply Z.pow_pos_nonneg; lia).
    unfold Qeq, Qmult, inject_Z. cbn [Qnum Qden].
    rewrite Pos.mul_1_r, Z2Pos.id by exact Hpos.
    replace k with ((e + k) + (- e)) at 1 by lia.
    rewrite Z.pow_add_r by lia. ring.
Qed.

(** Two values compare as their mantissas do once aligned on the smaller
    exponent. *)
Lemma finite_value_le (nx ex ny ey : Z) :
  (Binary64.finite_value ny ey <= Binary64.finite_value nx ex)%Q ->
  ny * 2 ^ (ey - Z.min ex ey) <= nx * 2 ^ (ex - Z.min ex ey).
Proof.
  intros Hle.
  remember (Z.min ex ey) as ez eqn:Hez.
  remember (Z.max 0 (- ez)) as k eqn:Hk.
  assert (Hx : 0 <= ex - ez) by lia.
  assert (Hy : 0 <= ey - ez) by lia.
  assert (Hz : 0 <= ez + k) by lia.
  assert (Hscaled : (Binary64.finite_value ny ey * inject_Z (2 ^ k)
                     <= Binary64.finite_value nx ex * inject_Z (2 ^ k))%Q).
  { apply Qmult_le_compat_r; [exact Hle |].
    change 0%Q with (inject_Z 0). rewrite <- Zle_Qle. apply Z.pow_nonneg. lia. }
  rewrite !finite_value_scale in Hscaled by lia.
  rewrite <- Zle_Qle in Hscaled.
  replace (ey + k) with ((ey - ez) + (ez + k)) in Hscaled by lia.
  replace (ex + k) with ((ex - ez) + (ez + k)) in Hscaled by lia.
  rewrite (Z.pow_add_r 2 (ey - ez)), (Z.pow_add_r 2 (ex - ez)), !Z.mul_assoc
    in Hscaled by assumption.
  assert (Hp : 0 < 2 ^ (ez + k)) by (apply Z.pow_pos_nonneg; lia).
  exact (proj2 (Z.mul_le_mono_pos_r _ _ _ Hp) Hscaled).
Qed.

Lemma finite_value_pos (m : positive) (e : Z) :
  (0 < Binary64.finite_value (Z.pos m) e)%Q.
Proof.
  unfold Binary64.finite_value. destruct (Z.leb_spec 0 e).
  - change 0%Q with (inject_Z 0). rewrite <- Zlt_Qlt.
    apply Z.mul_pos_pos; [lia | apply Z.pow_pos_nonneg; lia].
  - unfold Qlt. cbn. lia.
Qed.

Lemma finite_value_neg (m : positive) (e : Z) :
  (Binary64.finite_value (Z.neg m) e < 0)%Q.
Proof.
  unfold Binary64.finite_value. destruct (Z.leb_spec 0 e).
  - change 0%Q with (inject_Z 0). rewrite <- Zlt_Qlt.
    assert (0 < 2 ^ e) by (apply Z.pow_pos_nonneg; lia). nia.
  - unfold Qlt. cbn. lia.
Qed.

Lemma iter_xO (m d : positive) : Z.pos (Pos.iter xO m d) = Z.pos m * 2 ^ Z.pos d.
Proof.
  induction d as [| d IH] using Pos.peano_ind.
  - cbn. lia.
  - rewrite Pos.iter_succ, Pos2Z.inj_succ, Z.pow_succ_r by lia.
    rewrite Pos2Z.inj_xO, IH. ring.
Qed.

Lemma shl_align_value (m : positive) (e ez : Z) :
  ez <= e -> Z.pos (fst (SpecFloat.shl_align m e ez)) = Z.pos m * 2 ^ (e - ez).
Proof.
  intros Hle. unfold SpecFloat.shl_align.
  destruct (ez - e) as [| d | d] eqn:Hd.
  - replace (e - ez) with 0 by lia. cbn [fst]. lia.
  - lia.
  - cbn [fst]. rewrite iter_xO. f_equal. f_equal. lia.
Qed.

Lemma binary_round_aux_sign (prec emax mx ex : Z) (lx : SpecFloat.location) :
  Binary64.not_negative (SpecFloat.binary_round_aux prec emax false mx ex lx).
Proof.
  unfold SpecFloat.binary_round_aux.
  destruct (SpecFloat.shr_fexp prec emax mx ex lx) as [mrs' e'].
  destruct (SpecFloat.shr_fexp prec emax _ e' SpecFloat.loc_Exact) as [mrs'' e''].
  destruct (SpecFloat.shr_m mrs''); cbn; auto.
  destruct (_ <=? _); cbn; auto.
Qed.

Lemma binary_normalize_sign (prec emax m e : Z) :
  0 <= m -> Binary64.not_negative (SpecFloat.binary_normalize prec emax m e false).
Proof.
  intros Hm. destruct m as [| m | m]; cbn; [exact I | | lia].
  unfold SpecFloat.binary_round. destruct (SpecFloat.shl_align _ _ _).
  apply binary_round_aux_sign.
Qed.

(** The specified difference of two finite floats [x >= y] is not negative. *)
Lemma SFsub_not_negative (prec emax : Z) (fx fy : SpecFloat.spec_float) (qx qy : Q) :
  Binary64.sf_value fx = Some qx -> Binary64.sf_value fy = Some qy -> (qy <= qx)%Q ->
  Binary64.not_negative (SpecFloat.SFsub prec emax fx fy).
Proof.
  destruct fx as [sx | sx | | sx mx ex]; destruct fy as [sy | sy | | sy my ey];
    cbn [Binary64.sf_value]; try discriminate; intros [= <-] [= <-] Hle.
  - cbn. destruct sx, sy; exact I.
  - cbn. destruct sy; [reflexivity |].
    pose proof (finite_value_pos my ey) as Hpos.
    exfalso. exact (Qlt_not_le _ _ Hpos Hle).
  - cbn. destruct sx; [| reflexivity].
    pose proof (finite_value_neg mx ex) as Hneg.
    exfalso. exact (Qlt_not_le _ _ Hneg Hle).
  - apply finite_value_le in Hle.
    cbn [SpecFloat.SFsub]. apply binary_normalize_sign.
    rewrite !shl_align_value by lia.
    destruct sx, sy; cbn [SpecFloat.cond_Zopp] in *; lia.
Qed.

(** A value that is not negative is not below one that is at most 0. *)
Lemma SFltb_not_negative (r d : SpecFloat.spec_float) (qd : Q) :
  Binary64.not_negative r -> Binary64.sf_value d = Some qd -> (qd <= 0)%Q ->
  SpecFloat.SFltb r d = false.
Proof.
  intros Hr Hd Hle.
  destruct d as [sd | sd | | sd md ed]; cbn [Binary64.sf_value] in Hd; try discriminate.
  - destruct r as [s | s | | s m e]; cbn in *; try reflexivity; subst; reflexivity.
  - injection Hd as <-. destruct sd.
    + destruct r as [s | s | | s m e]; cbn in *; try reflexivity; subst; reflexivity.
    + pose proof (finite_value_pos md ed) as Hpos.
      exfalso. exact (Qlt_not_le _ _ Hpos Hle).
Qed.

(** When [y <= x], the float [x - y] is not below a window that is zero or
    negative: the test of lines 111 and 119 is false. *)
Lemma sub_not_below_window (x y d : PrimFloat.float) :
  Binary64.le y x -> Binary64.le d PrimFloat.zero ->
  PrimFloat.ltb (PrimFloat.sub x y) d = false.
Proof.
  unfold Binary64.le. rewrite !to_Q_sf_value.
  destruct (Binary64.sf_value (FloatOps.Prim2SF y)) as [qy |] eqn:Hy; [| tauto].
  destruct (Binary64.sf_value (FloatOps.Prim2SF x)) as [qx |] eqn:Hx; [| tauto].
  destruct (Binary64.sf_value (FloatOps.Prim2SF d)) as [qd |] eqn:Hd; [| tauto].
  intros Hyx Hd0.
  rewrite FloatAxioms.ltb_spec, FloatAxioms.sub_spec.
  apply (SFltb_not_negative _ _ qd); [| exact Hd | exact Hd0].
  apply (SFsub_not_negative _ _ _ _ qx qy Hx Hy Hyx).
Qed.

Lemma float_le_trans (x y z : PrimFloat.float) :
  Binary64.le x y -> Binary64.le y z -> Binary64.le x z.
Proof.
  unfold Binary64.le.
  destruct (Binary64.to_Q x), (Binary64.to_Q y), (Binary64.to_Q z); try tauto.
  apply Qle_trans.
Qed.

Lemma float_le_refl_l (x y : PrimFloat.float) : Binary64.le x y -> Binary64.le x x.
Proof.
  unfold Binary64.le. destruct (Binary64.to_Q x), (Binary64.to_Q y); try tauto.
  intros _. apply Qle_refl.
Qed.

Lemma float_le_refl_r (x y : PrimFloat.float) : Binary64.le x y -> Binary64.le y y.
Proof.
  unfold Binary64.le. destruct (Binary64.to_Q x), (Binary64.to_Q y); try tauto.
  intros _. apply Qle_refl.
Qed.

(** X15. A window of 0 ([debounce_ms: 0]) switches the debounce off: when no
    timestamp of the bridge lies after [now], as with a monotonic clock, an
    event on one of its addresses with a decodable payload is never dropped
    but answered by exactly one call. *)
Theorem zero_window_never_suppresses
    (now now_send : PrimFloat.float) (event : Event) (self : KnxStepBridgeManager)
    (i : nat) (bridge : Bridge) (raw : Z) :
  Binary64.le (_debounce self) PrimFloat.zero ->
  sent_by now bridge ->
  truthy (event_address event) = true ->
  _find_bridge_by_address self (event_address event) = Some (i, bridge) ->
  _payload_to_int (event_payload event) = Ok (Some raw) ->
  valid_bridge bridge ->
  fits_float raw = true ->
  _handle_knx_event now now_send event self <> (Ok tt, self)
  /\ hass_calls (snd (_handle_knx_event now now_send event self))
     = hass_calls self ++ [answer (event_address event) bridge raw].
Proof.
  intros Hzero [Hstep Hpercent] Haddr Hfind Hdec Hvalid Hfits.
  assert (Hwin : PrimFloat.ltb
                   (PrimFloat.sub now (checked_ts (event_address event) bridge))
                   (_debounce self) = false).
  { apply sub_not_below_window; [| exact Hzero].
    unfold checked_ts. destruct (eq_str _ _); assumption. }
  split.
  - rewrite (handle_drops_iff _ _ _ _ _ _ _ Haddr Hfind Hdec), Hwin. discriminate.
  - rewrite (handle_processed _ _ _ _ _ _ _ Haddr Hfind Hdec Hvalid Hfits Hwin).
    reflexivity.
Qed.

Lemma zero_window_never_suppresses_witness :
  _handle_knx_event (Binary64.of_int 5) (Binary64.of_int 6)
    (event_of [("address", VStr "A"); ("data", VInt 2)]) scenario_manager
  <> (Ok tt, scenario_manager)
  /\ hass_calls (snd (_handle_knx_event (Binary64.of_int 5) (Binary64.of_int 6)
                        (event_of [("address", VStr "A"); ("data", VInt 2)])
                        scenario_manager))
     = hass_calls scenario_manager
       ++ [answer (VStr "A") (new_bridge "cover" "A" "B" 4) 2].
Proof.
  apply (zero_window_never_suppresses (Binary64.of_int 5) (Binary64.of_int 6)
           (event_of [("address", VStr "A"); ("data", VInt 2)]) scenario_manager
           0 (new_bridge "cover" "A" "B" 4) 2); try reflexivity.
  - apply leb_value_le. reflexivity.
  - split; apply leb_value_le; reflexivity.
  - unfold valid_bridge. cbn. lia.
Defined.

(** The handler reads an event through its address and its payload only. *)
Lemma handle_ext
    (now now_send : PrimFloat.float) (event event' : Event) (self : KnxStepBridgeManager) :
  event_address event' = event_address event ->
  event_payload event' = event_payload event ->
  _handle_knx_event now now_send event' self = _handle_knx_event now now_send event self.
Proof. intros Ha Hp. rewrite !handle_unfold, Ha, Hp. reflexivity. Qed.

(** X16. An event that has no [address] (the key is missing, [None] or
    empty) but a [destination] is handled exactly as the same event with the
    destination under [address]. *)
Theorem destination_stands_in_for_address
    (now now_send : PrimFloat.float) (data : gmap string pyval) (self : KnxStepBridgeManager) :
  truthy (dict_get data "address") = false ->
  _handle_knx_event now now_send {| event_data := Some data |} self
  = _handle_knx_event now now_send
      {| event_data := Some (<["address" := dict_get data "destination"]> data) |} self.
Proof.
  intros Hmissing. apply handle_ext.
  - unfold event_address, dict_get, or_ in *. cbn.
    rewrite lookup_insert_eq, lookup_insert_ne by discriminate. cbn.
    destruct (truthy (default VNone (data !! "address"))); [discriminate |].
    destruct (truthy (default VNone (data !! "destination"))); reflexivity.
  - unfold event_payload, dict_get. cbn.
    rewrite lookup_insert_ne by discriminate. reflexivity.
Qed.

Lemma destination_stands_in_for_address_witness :
  let data : gmap string pyval :=
    list_to_map [("destination", VStr "1/2/4"); ("data", VList [VInt 171])] in
  _handle_knx_event (Binary64.of_int 20) (Binary64.of_int 21)
    {| event_data := Some data |} sample_manager
  = _handle_knx_event (Binary64.of_int 20) (Binary64.of_int 21)
      {| event_data := Some (<["address" := dict_get data "destination"]> data) |}
      sample_manager.
Proof.
  intros data.
  apply (destination_stands_in_for_address (Binary64.of_int 20) (Binary64.of_int 21)
           data sample_manager).
  reflexivity.
Defined.

(** ** The stream of events *)

(** What one call of the handler does to the manager: nothing, or one
    timestamp of one bridge and one more call. *)
Lemma handle_effect
    (now now_send : PrimFloat.float) (event : Event) (self : KnxStepBridgeManager) :
  snd (_handle_knx_event now now_send event self) = self
  \/ exists i bridge b' c,
       bridges self !! i = Some bridge
       /\ (b' = with_percent_ts now_send bridge \/ b' = with_step_ts now_send bridge)
       /\ snd (_handle_knx_event now now_send event self)
          = {| bridges := <[i := b']> (bridges self);
               _debounce := _debounce self;
               hass_calls := hass_calls self ++ [c] |}.
Proof.
  destruct (handle_cases now now_send event self)
    as [H | [[e H] | (i & bridge & raw & Hfind & _ & [H | H])]];
    rewrite H; [left; reflexivity | left; reflexivity | |];
    apply find_bridge_lookup in Hfind as [Hlook _]; right.
  - rewrite send_percent_eq. cbn [snd]. eauto 10.
  - rewrite send_step_eq. cbn [snd]. eauto 10.
Qed.

Lemma same_config_refl (b : Bridge) : same_config b b.
Proof. unfold same_config. auto. Qed.

Lemma same_config_trans (b1 b2 b3 : Bridge) :
  same_config b1 b2 -> same_config b2 b3 -> same_config b1 b3.
Proof. unfold same_config. intros (? & ? & ? & ?) (? & ? & ? & ?). repeat split; congruence. Qed.

Lemma Forall2_update {A} (R : A -> A -> Prop) (l : list A) (i : nat) (x y : A) :
  (forall z, R z z) -> l !! i = Some x -> R x y -> Forall2 R l (<[i := y]> l).
Proof.
  intros Hrefl Hlook Hxy.
  rewrite <- (list_insert_id l i x Hlook) at 1.
  apply Forall2_insert; [| exact Hxy].
  apply Forall_Forall2_diag, Forall_forall. auto.
Qed.

Lemma find_from_same_config (bs bs' : list Bridge) (address : pyval) :
  Forall2 same_config bs bs' ->
  forall k, fst <$> find_from k bs' address = fst <$> find_from k bs address.
Proof.
  induction 1 as [| b b' bs bs' (_ & Hs & Hp & _) _ IH]; intros k; cbn; [reflexivity |].
  unfold owns. rewrite Hs, Hp.
  destruct (eq_str address (step_address b) || eq_str address (percent_address b));
    [reflexivity | apply IH].
Qed.

(** X17. Whatever events arrive, in whatever order and at whatever times,
    the registry keeps its shape: the window, the number of bridges and the
    name, addresses and [max_step] of each bridge stay as set up, so every
    address keeps resolving to the same position; calls already dispatched
    are never withdrawn, and there are at most as many new calls as events. *)
Theorem deliver_keeps_registry (ds : list Delivery) (self : KnxStepBridgeManager) :
  _debounce (deliver ds self) = _debounce self
  /\ Forall2 same_config (bridges self) (bridges (deliver ds self))
  /\ (forall address,
        fst <$> _find_bridge_by_address (deliver ds self) address
        = fst <$> _find_bridge_by_address self address)
  /\ exists sent,
       hass_calls (deliver ds self) = hass_calls self ++ sent
       /\ (length sent <= length ds)%nat.
Proof.
  assert (Hmain : _debounce (deliver ds self) = _debounce self
                  /\ Forall2 same_config (bridges self) (bridges (deliver ds self))
                  /\ exists sent,
                       hass_calls (deliver ds self) = hass_calls self ++ sent
                       /\ (length sent <= length ds)%nat).
  { revert self. induction ds as [| d ds IH]; intros self; cbn [deliver].
    - split; [reflexivity |]. split.
      + apply Forall_Forall2_diag, Forall_forall. intros b _. apply same_config_refl.
      + exists []. rewrite app_nil_r. cbn. auto.
    - destruct (IH (snd (_handle_knx_event (d_now d) (d_now_send d) (d_event d) self)))
        as (Hd & Hcfg & sent & Hsent & Hlen).
      destruct (handle_effect (d_now d) (d_now_send d) (d_event d) self)
        as [Hsame | (i & bridge & b' & c & Hlook & Hb' & Hstate)].
      + rewrite Hsame in *. split; [exact Hd |]. split; [exact Hcfg |].
        exists sent. cbn. split; [exact Hsent | lia].
      + rewrite Hstate in *. cbn in Hd, Hcfg, Hsent.
        split; [exact Hd |]. split.
        * eapply Forall2_trans; [| | exact Hcfg].
          -- intros x y z. apply same_config_trans.
          -- apply (Forall2_update _ _ _ bridge); [apply same_config_refl | exact Hlook |].
             destruct Hb' as [-> | ->]; unfold same_config; cbn; auto.
        * exists (c :: sent). rewrite Hsent, <- app_assoc. cbn. split; [reflexivity | lia]. }
  destruct Hmain as (Hd & Hcfg & Hsent).
  split; [exact Hd |]. split; [exact Hcfg |]. split; [| exact Hsent].
  intros address. unfold _find_bridge_by_address.
  apply find_from_same_config. exact Hcfg.
Qed.

Lemma Forall2_update_on {A} (R : A -> A -> Prop) (l : list A) (i : nat) (x y : A) :
  Forall (fun z => R z z) l -> l !! i = Some x -> R x y -> Forall2 R l (<[i := y]> l).
Proof.
  intros Hrefl Hlook Hxy.
  rewrite <- (list_insert_id l i x Hlook) at 1.
  apply Forall2_insert; [| exact Hxy].
  apply Forall_Forall2_diag. exact Hrefl.
Qed.

Lemma sent_by_later (t t' : PrimFloat.float) (b : Bridge) :
  Binary64.le t t' -> sent_by t b -> sent_by t' b.
Proof.
  intros Hle [Hs Hp]. split; eapply float_le_trans; eauto.
Qed.

Lemma sent_by_ts_le (t : PrimFloat.float) (b : Bridge) : sent_by t b -> ts_le b b.
Proof.
  intros [Hs Hp]. split; eapply float_le_refl_l; eauto.
Qed.

Lemma ts_le_trans (b1 b2 b3 : Bridge) : ts_le b1 b2 -> ts_le b2 b3 -> ts_le b1 b3.
Proof. intros [? ?] [? ?]. split; eapply float_le_trans; eauto. Qed.

(** X18. Under a monotonic clock the timestamps only move forward: if no
    timestamp lies after the clock when the stream starts, then after the
    stream none lies after the clock, and neither timestamp of any bridge is
    earlier than it was. *)
Theorem deliver_timestamps_monotone
    (t : PrimFloat.float) (ds : list Delivery) (self : KnxStepBridgeManager) :
  monotonic_from t ds ->
  Forall (sent_by t) (bridges self) ->
  Forall (sent_by (clock_after t ds)) (bridges (deliver ds self))
  /\ Forall2 ts_le (bridges self) (bridges (deliver ds self)).
Proof.
  revert t self. induction ds as [| d ds IH]; intros t self Hmono Hsent; cbn.
  - split; [exact Hsent |].
    apply Forall_Forall2_diag. eapply Forall_impl; [exact Hsent |].
    intros b. apply sent_by_ts_le.
  - destruct Hmono as (Hnow & Hsend & Hrest).
    assert (Hle : Binary64.le t (d_now_send d)) by (eapply float_le_trans; eauto).
    assert (Hself : Binary64.le (d_now_send d) (d_now_send d))
      by (eapply float_le_refl_r; eauto).
    assert (Hrefl : Forall (fun b => ts_le b b) (bridges self)).
    { eapply Forall_impl; [exact Hsent |]. intros b. apply sent_by_ts_le. }
    change (clock_after t (d :: ds)) with (clock_after (d_now_send d) ds).
    destruct (handle_effect (d_now d) (d_now_send d) (d_event d) self)
      as [Hsame | (i & bridge & b' & c & Hlook & Hb' & Hstate)].
    + rewrite Hsame. apply IH; [exact Hrest |].
      eapply Forall_impl; [exact Hsent |]. intros b. apply sent_by_later. exact Hle.
    + rewrite Hstate.
      assert (Hbridge : sent_by t bridge).
      { rewrite Forall_forall in Hsent. apply Hsent, list_elem_of_lookup. eauto. }
      pose proof (sent_by_later _ _ _ Hle Hbridge) as [Hbs Hbp].
      pose proof (sent_by_ts_le _ _ Hbridge) as [Hrs Hrp].
      match goal with
      | |- context [deliver ds ?m] =>
          destruct (IH (d_now_send d) m Hrest) as [Hafter Hmon]
      end.
      * cbn. apply Forall_insert.
        -- eapply Forall_impl; [exact Hsent |]. intros b. apply sent_by_later. exact Hle.
        -- destruct Hb' as [-> | ->]; split; cbn; assumption.
      * split; [exact Hafter |]. cbn in Hmon.
        eapply Forall2_trans; [| | exact Hmon].
        -- intros x y z. apply ts_le_trans.
        -- apply (Forall2_update_on _ _ _ bridge); [exact Hrefl | exact Hlook |].
           destruct Hb' as [-> | ->]; split; cbn; assumption.
Qed.

Lemma deliver_timestamps_monotone_witness :
  Forall (sent_by (clock_after (Binary64.of_int 10) sample_stream))
         (bridges (deliver sample_stream sample_manager))
  /\ Forall2 ts_le (bridges sample_manager) (bridges (deliver sample_stream sample_manager)).
Proof.
  apply (deliver_timestamps_monotone (Binary64.of_int 10) sample_stream sample_manager).
  - cbn. repeat split; apply leb_value_le; reflexivity.
  - repeat constructor; apply leb_value_le; reflexivity.
Defined.
